(** * testtxt: a shallow embedding of the parser of test description files

    The development follows [testtxt.go] (package [testtxt]): the scanner
    ([readDef], [checkDef], [getLine]), the block reader ([readText]), the
    expansion pipeline ([doTemplSubst], [applySubst]), the template
    registry ([templDef], [readTemplName]) and the schema binder
    ([parse], [addElement], [setVal], [toSnakeCase]).

    Go strings and byte slices are [string]s of 8-bit characters.  The
    functions of the Go standard library that the parser calls are modelled
    in the modules [Strings], [Utf8], [Strconv] and [Regexp]; the YAML
    decoder, the [text/template] engine and [strconv.Quote] are the fields
    of the class [Engine]. *)

From Stdlib Require Import ZArith Ascii DecimalString Lia.
From stdpp Require Import base gmap strings list.

Local Open Scope Z_scope.
Local Open Scope stdpp_scope.

(** ** Bytes and slices of strings *)

Definition newline : ascii := "010"%char.
Definition nl : string := String newline "".

Definition code (c : ascii) : Z := Z.of_N (N_of_ascii c).

(** [lo <= c && c <= hi] on bytes. *)
Definition between (lo hi c : ascii) : bool :=
  (code lo <=? code c) && (code c <=? code hi).

Definition isUpperByte (c : ascii) : bool := between "A" "Z" c.
Definition isLowerByte (c : ascii) : bool := between "a" "z" c.
Definition isDigitByte (c : ascii) : bool := between "0" "9" c.

(** [s[:n]] and [s[n:]].  Go panics when [n] exceeds [len(s)]; the parser
    only slices at indices it has computed inside the string. *)
Fixpoint take (n : nat) (s : string) : string :=
  match n, s with
  | S n, String c r => String c (take n r)
  | _, _ => ""
  end.

Fixpoint drop (n : nat) (s : string) : string :=
  match n, s with
  | S n, String _ r => drop n r
  | _, _ => s
  end.

Definition len (s : string) : nat := String.length s.

Fixpoint rev (s : string) : string :=
  match s with
  | "" => ""
  | String c r => rev r +:+ String c ""
  end.

Fixpoint allBytes (p : ascii → bool) (s : string) : bool :=
  match s with
  | "" => true
  | String c r => p c && allBytes p r
  end.

Definition eqs (a b : string) : bool := bool_decide (a = b).

Definition byteIs (a b : ascii) : bool := bool_decide (a = b).

(** [s[0] == c], for a string that may be empty. *)
Definition headIs (c : ascii) (s : string) : bool :=
  match s with
  | String d _ => bool_decide (d = c)
  | "" => false
  end.

(** ** unicode/utf8 *)

Module Utf8.

Definition cont (c : ascii) : bool := between "128" "191" c.

(** Width of the rune that [utf8.DecodeRuneInString] reads at the head of
    a non-empty string; an invalid or truncated encoding has width 1. *)
Definition width (s : string) : nat :=
  match s with
  | "" => 0%nat
  | String b0 r =>
      if code b0 <? 128 then 1%nat
      else if between "194" "223" b0 then
        match r with
        | String b1 _ => if cont b1 then 2%nat else 1%nat
        | _ => 1%nat
        end
      else if between "224" "239" b0 then
        match r with
        | String b1 (String b2 _) =>
            let lo := if code b0 =? 224 then "160"%char else "128"%char in
            let hi := if code b0 =? 237 then "159"%char else "191"%char in
            if between lo hi b1 && cont b2 then 3%nat else 1%nat
        | _ => 1%nat
        end
      else if between "240" "244" b0 then
        match r with
        | String b1 (String b2 (String b3 _)) =>
            let lo := if code b0 =? 240 then "144"%char else "128"%char in
            let hi := if code b0 =? 244 then "143"%char else "191"%char in
            if between lo hi b1 && cont b2 && cont b3 then 4%nat else 1%nat
        | _ => 1%nat
        end
      else 1%nat
  end.

End Utf8.

(** ** Package strings (and bytes) *)

Module Strings.

(** [bytes.IndexByte]; [None] is Go's [-1]. *)
Fixpoint IndexByte (s : string) (c : ascii) : option nat :=
  match s with
  | "" => None
  | String d r =>
      if bool_decide (d = c) then Some 0%nat
      else S <$> IndexByte r c
  end.

(** [strings.IndexAny(s, chars)], for a set of one-byte characters. *)
Fixpoint IndexAny (s : string) (chars : list ascii) : option nat :=
  match s with
  | "" => None
  | String d r =>
      if bool_decide (d ∈ chars) then Some 0%nat
      else S <$> IndexAny r chars
  end.

Fixpoint HasPrefix (s p : string) : bool :=
  match p, s with
  | "", _ => true
  | String a p, String b s => bool_decide (a = b) && HasPrefix s p
  | _, _ => false
  end.

Definition HasSuffix (s p : string) : bool := HasPrefix (rev s) (rev p).

Definition TrimSuffix (s p : string) : string :=
  if HasSuffix s p then take (len s - len p) s else s.

(** [strings.Contains]. *)
Fixpoint Contains (s sub : string) : bool :=
  HasPrefix s sub
  || match s with
     | String _ r => Contains r sub
     | "" => false
     end.

(** [bytes.Count(s, sep)] for a one-byte separator. *)
Fixpoint Count (s : string) (c : ascii) : nat :=
  match s with
  | "" => 0%nat
  | String d r => ((if bool_decide (d = c) then 1 else 0) + Count r c)%nat
  end.

(** White space as [unicode.IsSpace] has it.  The one-byte characters are
    the table [asciiSpace]. *)
Definition asciiSpace (c : ascii) : bool :=
  match c with
  | "009" | "010" | "011" | "012" | "013" | " " => true
  | _ => false
  end%char.

(** U+0085 and U+00A0, encoded [C2 85] and [C2 A0]. *)
Definition space2 (b0 b1 : ascii) : bool :=
  byteIs b0 "194" && (byteIs b1 "133" || byteIs b1 "160").

(** U+1680 ([E1 9A 80]), U+2000 to U+200A ([E2 80 80] to [E2 80 8A]),
    U+2028, U+2029, U+202F ([E2 80 A8], [A9], [AF]), U+205F ([E2 81 9F])
    and U+3000 ([E3 80 80]). *)
Definition space3 (b0 b1 b2 : ascii) : bool :=
  byteIs b0 "225" && byteIs b1 "154" && byteIs b2 "128"
  || byteIs b0 "226" && byteIs b1 "128"
     && (between "128" "138" b2 || byteIs b2 "168" || byteIs b2 "169" || byteIs b2 "175")
  || byteIs b0 "226" && byteIs b1 "129" && byteIs b2 "159"
  || byteIs b0 "227" && byteIs b1 "128" && byteIs b2 "128".

(** [strings.TrimLeftFunc(s, unicode.IsSpace)]. *)
Fixpoint TrimLeft (s : string) : string :=
  match s with
  | "" => ""
  | String b0 r =>
      if asciiSpace b0 then TrimLeft r
      else
        match r with
        | String b1 r1 =>
            if space2 b0 b1 then TrimLeft r1
            else
              match r1 with
              | String b2 r2 => if space3 b0 b1 b2 then TrimLeft r2 else s
              | "" => s
              end
        | "" => s
        end
  end.

(** The same scan on the reversed string: the encodings are read last
    byte first, as [utf8.DecodeLastRuneInString] finds them. *)
Fixpoint trimLeftRev (s : string) : string :=
  match s with
  | "" => ""
  | String b0 r =>
      if asciiSpace b0 then trimLeftRev r
      else
        match r with
        | String b1 r1 =>
            if space2 b1 b0 then trimLeftRev r1
            else
              match r1 with
              | String b2 r2 => if space3 b2 b1 b0 then trimLeftRev r2 else s
              | "" => s
              end
        | "" => s
        end
  end.

(** [strings.TrimRightFunc(s, unicode.IsSpace)]. *)
Definition TrimRight (s : string) : string := rev (trimLeftRev (rev s)).

Definition TrimSpace (s : string) : string := TrimRight (TrimLeft s).

(** [strings.Split(s, sep)] for a separator of one byte (the parser
    passes [line[0:1]]). *)
Fixpoint Split (s : string) (sep : ascii) : list string :=
  match s with
  | "" => [""]
  | String c r =>
      if bool_decide (c = sep) then "" :: Split r sep
      else
        match Split r sep with
        | p :: ps => String c p :: ps
        | [] => [String c ""]
        end
  end.

(** [strings.ReplaceAll(s, old, new)] with [old] not empty: the
    occurrences are taken from the left and do not overlap.  [skip] counts
    the bytes of the occurrence under replacement still to be dropped. *)
Fixpoint replaceFrom (skip : nat) (s old new : string) : string :=
  match s with
  | "" => ""
  | String c r =>
      match skip with
      | S k => replaceFrom k r old new
      | O =>
          if HasPrefix s old then new +:+ replaceFrom (len old - 1) r old new
          else String c (replaceFrom 0 r old new)
      end
  end.

(** [strings.ReplaceAll(s, "", new)]: [new] is inserted in front of every
    rune and at the end.  [inside] counts the bytes of the current rune
    still to be copied. *)
Fixpoint insertAtRunes (inside : nat) (s new : string) : string :=
  match s with
  | "" => new
  | String c r =>
      match inside with
      | S k => String c (insertAtRunes k r new)
      | O => new +:+ String c (insertAtRunes (Utf8.width s - 1) r new)
      end
  end.

Definition ReplaceAll (s old new : string) : string :=
  if eqs old new then s
  else if eqs old "" then insertAtRunes 0 s new
  else replaceFrom 0 s old new.

(** [strings.ToUpper] on the ASCII letters; bytes of other characters are
    kept (field names are taken to be ASCII identifiers). *)
Definition upperByte (c : ascii) : ascii :=
  if isLowerByte c then ascii_of_N (N_of_ascii c - 32) else c.

Fixpoint ToUpper (s : string) : string :=
  match s with
  | "" => ""
  | String c r => String (upperByte c) (ToUpper r)
  end.

End Strings.

(** ** Package strconv *)

Module Strconv.

Inductive NumErr := ErrSyntax | ErrRange.

Definition maxUint64 : Z := 2 ^ 64 - 1.
Definition cutoff10 : Z := maxUint64 / 10 + 1.

(** The loop of [ParseUint(s, 10, 64)] over the bytes of [s]; [n] is the
    [uint64] accumulator, its additions wrap around at [2^64]. *)
Fixpoint parseUintLoop (s : string) (n : Z) : NumErr + Z :=
  match s with
  | "" => inr n
  | String c r =>
      if isDigitByte c then
        let d := code c - code "0" in
        if cutoff10 <=? n then inl ErrRange
        else
          let n := n * 10 in
          let n1 := (n + d) mod 2 ^ 64 in
          if (n1 <? n) || (maxUint64 <? n1) then inl ErrRange
          else parseUintLoop r n1
      else inl ErrSyntax
  end.

Definition ParseUint (s : string) : NumErr + Z :=
  if eqs s "" then inl ErrSyntax else parseUintLoop s 0.

(** [ParseInt(s, 10, 64)]. *)
Definition ParseInt (s0 : string) : NumErr + Z :=
  match s0 with
  | "" => inl ErrSyntax
  | String c r =>
      let neg := bool_decide (c = "-"%char) in
      let s := if bool_decide (c = "+"%char) || neg then r else s0 in
      match ParseUint s with
      | inl ErrSyntax => inl ErrSyntax
      | inl ErrRange => inl ErrRange
      | inr un =>
          let cutoff := 2 ^ 63 in
          if negb neg && (cutoff <=? un) then inl ErrRange
          else if neg && (cutoff <? un) then inl ErrRange
          else inr (if neg then - un else un)
      end
  end.

Definition errText (e : NumErr) : string :=
  match e with
  | ErrSyntax => "invalid syntax"
  | ErrRange => "value out of range"
  end.

(** The text of the [NumError] that [ParseInt] returns. *)
Definition NumError (quote : string → string) (num : string) (e : NumErr)
  : string :=
  "strconv.ParseInt: parsing " +:+ quote num +:+ ": " +:+ errText e.

(** [%d] of a line number. *)
Definition Itoa (n : nat) : string := NilZero.string_of_uint (Nat.to_uint n).

End Strconv.

(** ** Package regexp: the three expressions of the parser *)

Module Regexp.

Import Strings.

(** [matchFirstCap.ReplaceAllString(s, "${1}_${2}")] for
    [(.)([A-Z][a-z]+)]: an underscore goes between the character matched
    by the dot (any but a newline) and the capital.  [inMatch] says that the
    scan is inside the run [[a-z]+] of a match. *)
Definition startsCap (r : string) : bool :=
  match r with
  | String u (String l _) => isUpperByte u && isLowerByte l
  | _ => false
  end.

Fixpoint replaceFirstCap (inMatch : bool) (s : string) : string :=
  match s with
  | "" => ""
  | String c r =>
      if inMatch && isLowerByte c then String c (replaceFirstCap true r)
      else
        match r with
        | String u r' =>
            if negb (bool_decide (c = newline)) && startsCap r
            then String c (String "_" (String u (replaceFirstCap true r')))
            else String c (replaceFirstCap false r)
        | "" => String c ""
        end
  end.

(** [matchAllCap.ReplaceAllString(s, "${1}_${2}")] for
    [([a-z0-9])([A-Z])]. *)
Fixpoint replaceAllCap (s : string) : string :=
  match s with
  | "" => ""
  | String c r =>
      match r with
      | String u r' =>
          if (isLowerByte c || isDigitByte c) && isUpperByte u
          then String c (String "_" (String u (replaceAllCap r')))
          else String c (replaceAllCap r)
      | "" => String c ""
      end
  end.

(** [templRx], [(?is)\[\[[a-z0-9_]+(\s+.*?\]?)?\]\]].

    Under [(?i)] the class [[a-z0-9_]] also holds the capitals and the two
    characters that fold to a letter: U+017F (long s, [C5 BF]) and U+212A
    (Kelvin sign, [E2 84 AA]).  [identWidth] is the width of such a
    character at the head of [s], or [0]. *)
Definition identWidth (s : string) : nat :=
  match s with
  | "" => 0%nat
  | String b0 r =>
      if isLowerByte b0 || isUpperByte b0 || isDigitByte b0
         || bool_decide (b0 = "_"%char)
      then 1%nat
      else
        match r with
        | String b1 r1 =>
            if bool_decide (b0 = "197"%char) && bool_decide (b1 = "191"%char)
            then 2%nat
            else
              match r1 with
              | String b2 _ =>
                  if bool_decide (b0 = "226"%char)
                     && bool_decide (b1 = "132"%char)
                     && bool_decide (b2 = "170"%char)
                  then 3%nat else 0%nat
              | "" => 0%nat
              end
        | "" => 0%nat
        end
  end.

(** Bytes taken by the greedy [[a-z0-9_]+]. *)
Fixpoint identRun (s : string) : nat :=
  match s with
  | "" => 0%nat
  | String _ r =>
      match identWidth s, r with
      | 1%nat, _ => S (identRun r)
      | 2%nat, String _ r1 => S (S (identRun r1))
      | 3%nat, String _ (String _ r2) => S (S (S (identRun r2)))
      | _, _ => 0%nat
      end
  end.

(** [\s] is [[\t\n\f\r ]]. *)
Definition isSpace (c : ascii) : bool :=
  match c with
  | "009" | "010" | "012" | "013" | " " => true
  | _ => false
  end%char.

Fixpoint spaceRun (s : string) : nat :=
  match s with
  | String c r => if isSpace c then S (spaceRun r) else 0%nat
  | "" => 0%nat
  end.

(** [.*?\]?\]\]]: the lazy star stops at the first [ ]] ]; one more bracket
    in front of it is taken by [\]?].  The result is the offset behind the
    closing brackets. *)
Fixpoint findClose (s : string) : option nat :=
  if HasPrefix s "]]]" then Some 3%nat
  else if HasPrefix s "]]" then Some 2%nat
  else
    match s with
    | String _ r => S <$> findClose r
    | "" => None
    end.

(** Length of the match of [templRx] that starts at the head of [s]. *)
Definition matchAt (s : string) : option nat :=
  if HasPrefix s "[[" then
    let s1 := drop 2 s in
    let n := identRun s1 in
    if (n =? 0)%nat then None
    else
      let s2 := drop n s1 in
      let w := spaceRun s2 in
      if (0 <? w)%nat then
        (λ k, 2 + n + w + k)%nat <$> findClose (drop w s2)
      else if HasPrefix s2 "]]" then Some (2 + n + 2)%nat
      else None
  else None.

(** [templRx.FindAllStringIndex(text, -1)]: the matches from the left,
    none overlapping the one before.  [skip] counts the bytes of the last
    match still to be passed, [pos] is the offset of [s] in the text. *)
Fixpoint findAll (skip pos : nat) (s : string) : list (nat * nat) :=
  match s with
  | "" => []
  | String _ r =>
      match skip with
      | S k => findAll k (S pos) r
      | O =>
          match matchAt s with
          | Some n => (pos, pos + n)%nat :: findAll (n - 1) (S pos) r
          | None => findAll 0 (S pos) r
          end
      end
  end.

Definition FindAllStringIndex (text : string) : list (nat * nat) :=
  findAll 0 0 text.

End Regexp.

(** ** The collaborators

    A Go result [(T, error)]: the value, or the text of the error. *)

Inductive result (A : Type) : Type :=
  | Val (a : A)
  | Error (e : string).
Arguments Val {A} a.
Arguments Error {A} e.

(** The libraries behind the parser: [gopkg.in/yaml.v3], [text/template]
    (with the option [missingkey=zero] and the function [DATE] that
    [templDef] installs) and [strconv.Quote], which renders [%q]. *)
Class Engine := {
  Template : Type;
  (** the [interface{}] a YAML document decodes to *)
  Data : Type;
  nilData : Data;
  yaml_Unmarshal : string → result Data;
  template_Parse : string → string → result Template;
  template_Execute : Template → Data → result string;
  strconv_Quote : string → string
}.

(** A template text without an action is rendered as it stands. *)
Definition PlainText (E : Engine) : Prop :=
  ∀ name text : string,
    Strings.Contains text "{{" = false →
    ∃ t, template_Parse name text = Val t
         ∧ ∀ d, template_Execute t d = Val text.

(** ** The caller's slice, seen through package reflect *)

Inductive Kind :=
  | KString
  | KInt
  | KBool
  | KOther (name : string).   (* any other [reflect.Kind], with its name *)

Record StructField := {
  Name : string;
  PkgPath : string;           (* empty for an exported field *)
  FieldKind : Kind
}.

Definition IsExported (f : StructField) : bool := eqs (PkgPath f) "".

Inductive Value :=
  | VString (s : string)
  | VInt (i : Z)
  | VBool (b : bool)
  | VOther.                   (* a value of another kind, not looked into *)

Definition zeroValue (k : Kind) : Value :=
  match k with
  | KString => VString ""
  | KInt => VInt 0
  | KBool => VBool false
  | KOther _ => VOther
  end.

(** The element type of the slice.  For a struct, [fields] is the list
    that [reflect.VisibleFields] returns. *)
Inductive ElemType :=
  | Struct (fields : list StructField)
  | NotStruct (k : Kind).

Inductive Elem :=
  | Rec (vals : list Value)
  | Single (v : Value).

Definition zeroElem (t : ElemType) : Elem :=
  match t with
  | Struct fields => Rec (zeroValue ∘ FieldKind <$> fields)
  | NotStruct k => Single (zeroValue k)
  end.

(** A slice: its elements and the part of the backing array between its
    length and its capacity. *)
Record Slice := {
  elemType : ElemType;
  elems : list Elem;
  spare : list Elem
}.

(** The argument [l any] of [ParseFile]. *)
Inductive any :=
  | NotPointer
  | PointerToOther
  | PointerToSlice (v : Slice).

Definition toSnakeCase (str : string) : string :=
  let snake := Regexp.replaceFirstCap false str in
  let snake := Regexp.replaceAllCap snake in
  Strings.ToUpper snake.

(** [addElement]: the slice one longer, and the index of its last element.
    [SetLen] brings to light what the backing array holds behind the
    length; [Grow] allocates zeroed elements. *)
Definition addElement (v : Slice) : Slice * nat :=
  let ln := (length (elems v) + 1)%nat in
  let e := match spare v with
           | e :: _ => e
           | [] => zeroElem (elemType v)
           end in
  ({| elemType := elemType v; elems := elems v ++ [e]; spare := tail (spare v) |},
   (ln - 1)%nat).

(** ** The scanner on strings *)

Definition lower (ch : Z) : Z := Z.lor (code "a" - code "A") ch.
Definition isDecimal (ch : Z) : bool := (code "0" <=? ch) && (ch <=? code "9").
Definition isLetter (ch : Z) : bool :=
  (code "a" <=? lower ch) && (lower ch <=? code "z") || (ch =? code "_").

(** [isName] ranges over the runes of [n].  A byte from 128 on belongs to a
    rune from 128 on (or to U+FFFD), which fails both tests just as the
    byte does; so the bytes are tested. *)
Definition isName (n : string) : bool :=
  allBytes (λ c, isLetter (code c) || isDecimal (code c)) n.

Definition checkDef (line : string) : string :=
  if eqs line "" || negb (headIs "=" line) then ""
  else
    match Strings.IndexByte (drop 1 line) "=" with
    | None => ""
    | Some idx =>
        let name := take idx (drop 1 line) in
        if (0 <? len name)%nat && isName name then name else ""
    end.

Definition getLineOf (rest : string) : string :=
  match Strings.IndexByte rest newline with
  | None => rest
  | Some idx => take (idx + 1) rest
  end.

(** ** The parser state and its monad *)

(** What a call of the parser leaves: a value, an error, or [Stuck] when a
    loop of the model has used up its fuel. *)
Inductive outcome (A : Type) : Type :=
  | Ok (a : A)
  | Err (e : string)
  | Stuck.
Arguments Ok {A} a.
Arguments Err {A} e.
Arguments Stuck {A}.

Section Parser.

Context {E : Engine}.

Record state := {
  src : string;
  rest : string;
  templates : gmap string Template;
  filename : string;
  slice : Slice
}.

Definition set_rest (r : string) (s : state) : state :=
  {| src := src s; rest := r; templates := templates s;
     filename := filename s; slice := slice s |}.

Definition set_templates (m : gmap string Template) (s : state) : state :=
  {| src := src s; rest := rest s; templates := m;
     filename := filename s; slice := slice s |}.

Definition set_slice (v : Slice) (s : state) : state :=
  {| src := src s; rest := rest s; templates := templates s;
     filename := filename s; slice := v |}.

Definition M (A : Type) : Type := state → outcome A * state.

Definition ret {A} (a : A) : M A := λ s, (Ok a, s).
Definition fail {A} (e : string) : M A := λ s, (Err e, s).
Definition stuck {A} : M A := λ s, (Stuck, s).

Definition bind {A B} (m : M A) (k : A → M B) : M B :=
  λ s, match m s with
       | (Ok a, s') => k a s'
       | (Err e, s') => (Err e, s')
       | (Stuck, s') => (Stuck, s')
       end.

Definition gets {A} (f : state → A) : M A := λ s, (Ok (f s), s).
Definition modify (f : state → state) : M unit := λ s, (Ok tt, f s).

(** [if err != nil { return f(err) }]. *)
Definition onError {A} (f : string → string) (m : M A) : M A :=
  λ s, match m s with
       | (Err e, s') => (Err (f e), s')
       | r => r
       end.

Definition lift {A} (r : result A) : M A :=
  match r with
  | Val a => ret a
  | Error e => fail e
  end.

Notation "'let*' x ':=' m 'in' k" := (bind m (λ x, k))
  (at level 10, x name, m at level 100, k at level 200,
   format "'[v' 'let*'  x  ':='  m  'in' '/' k ']'").
Notation "m ';;' k" := (bind m (λ _, k))
  (at level 100, k at level 200, right associativity).

Definition quote : string → string := strconv_Quote.

(** *** The scanner *)

Definition getLine : M string := gets (λ s, getLineOf (rest s)).

Definition currentLine : M nat :=
  gets (λ s, 1 + Strings.Count (take (len (src s) - len (rest s)) (src s))
                               newline)%nat.

(** The loop of [readDef] that skips empty lines and comments: [None] at
    the end of the input, or the line that is next. *)
Fixpoint readDef_skip (fuel : nat) : M (option string) :=
  match fuel with
  | O => stuck
  | S fuel =>
      let* r := gets rest in
      let idx := Strings.IndexByte r newline in
      let line := match idx with
                  | None => r
                  | Some idx => take idx r
                  end in
      let line2 := Strings.TrimSpace line in
      if eqs line2 "" || headIs "#" line2 then
        match idx with
        | None => modify (set_rest (drop (len r) r));; ret None
        | Some idx => modify (set_rest (drop (idx + 1) r));;
                      readDef_skip fuel
        end
      else ret (Some line)
  end.

Definition readDef : M string :=
  let* r := gets rest in
  let* found := readDef_skip (S (len r)) in
  match found with
  | None => ret ""
  | Some line =>
      let name := checkDef line in
      if eqs name "" then
        let* nr := currentLine in
        let* file := gets filename in
        fail ("expecting token '=...=' at line " +:+ Strconv.Itoa nr
              +:+ " of file " +:+ quote file +:+ ": " +:+ line)
      else
        let* r := gets rest in
        modify (set_rest (drop (len name + 2) r));;
        ret name
  end.

(** *** The block reader *)

(** The loop of [readText]; [text] is the input at the start of the block
    and [size] the number of bytes read so far. *)
Fixpoint readText_loop (fuel : nat) (text : string) (size : nat) : M string :=
  match fuel with
  | O => stuck
  | S fuel =>
      let* line := getLine in
      let name := checkDef line in
      if negb (eqs name "") || eqs line "" then
        (if eqs name "END"
         then let* r := gets rest in modify (set_rest (drop (len "=END=") r))
         else ret tt);;
        ret (take size text)
      else
        let* r := gets rest in
        modify (set_rest (drop (len line) r));;
        readText_loop fuel text (size + len line)
  end.

Definition readText : M string :=
  let* line := getLine in
  let* r := gets rest in
  modify (set_rest (drop (len line) r));;
  let line := Strings.TrimSpace line in
  if negb (eqs line "") then ret line
  else
    let* text := gets rest in
    readText_loop (S (len text)) text 0.

(** *** The expansion pipeline *)

(** The body of the loop of [doTemplSubst] for the match [p] of [templRx]:
    the text that the call expands to. *)
Definition callTemplate (tm : gmap string Template) (text : string)
    (p : nat * nat) : result string :=
  let pair := take (p.2 - 2 - (p.1 + 2)) (drop (p.1 + 2) text) in
  let call :=
    match Strings.IndexAny pair [" "; "009"; "010"]%char with
    | Some i =>
        let name := take i pair in
        let y := drop (i + 1) pair in
        match yaml_Unmarshal y with
        | Error err =>
            Error ("invalid YAML data " +:+ quote y
                   +:+ " in call to template " +:+ quote name +:+ ":"
                   +:+ nl +:+ " " +:+ quote err)
        | Val data => Val (name, data)
        end
    | None => Val (pair, nilData)
    end in
  match call with
  | Error e => Error e
  | Val (name, data) =>
      match tm !! name with
      | None => Error ("calling unknown template " +:+ quote name)
      | Some t => template_Execute t data
      end
  end.

(** The loop of [doTemplSubst] over the matches; [prevIdx] is the position
    behind the match before. *)
Fixpoint doTemplSubst_loop (tm : gmap string Template) (text : string)
    (il : list (nat * nat)) (prevIdx : nat) : result string :=
  match il with
  | [] => Val (drop prevIdx text)
  | p :: il =>
      match callTemplate tm text p with
      | Error e => Error e
      | Val b =>
          match doTemplSubst_loop tm text il p.2 with
          | Error e => Error e
          | Val res => Val (take (p.1 - prevIdx) (drop prevIdx text)
                            +:+ b +:+ res)
          end
      end
  end.

Definition doTemplSubst (text : string) : M string :=
  let* tm := gets templates in
  lift (doTemplSubst_loop tm text (Regexp.FindAllStringIndex text) 0).

Fixpoint applySubst_loop (fuel : nat) (text : string) : M string :=
  match fuel with
  | O => stuck
  | S fuel =>
      let* line := getLine in
      let name := checkDef line in
      if negb (eqs name "SUBST") then ret text
      else
        let* r := gets rest in
        modify (set_rest (drop (len line) r));;
        let line := drop (len "=SUBST=") line in
        let line := Strings.TrimSpace line in
        match line with
        | "" => fail "invalid empty substitution"
        | String d payload =>
            match Strings.Split payload d with
            | [from; to; ""] =>
                applySubst_loop fuel (Strings.ReplaceAll text from to)
            | _ => fail ("invalid substitution: =SUBST=" +:+ line)
            end
        end
  end.

Definition applySubst (text : string) : M string :=
  let* r := gets rest in
  applySubst_loop (S (len r)) text.

Definition readExpandedText : M string :=
  let* text := readText in
  let* line := doTemplSubst text in
  applySubst line.

(** *** The template registry *)

Definition readTemplName : M string :=
  let* r := gets rest in
  let idx := Strings.IndexByte r newline in
  let line := match idx with
              | None => r
              | Some idx => take idx r
              end in
  modify (set_rest (match idx with
                    | None => drop (len r) r
                    | Some idx => drop idx r
                    end));;
  let name := Strings.TrimSpace line in
  if (len name =? 0)%nat then fail "missing name after =TEMPL="
  else if negb (isName name)
  then fail ("invalid name after =TEMPL=: " +:+ quote name)
  else ret name.

Definition templDef : M unit :=
  let* name := readTemplName in
  let* text := readExpandedText in
  let text := Strings.TrimSuffix text nl in
  if (len text =? 0)%nat then fail ("missing text after =TEMPL=" +:+ name)
  else
    match template_Parse name text with
    | Val t =>
        let* tm := gets templates in
        modify (set_templates (<[name := t]> tm))
    | Error err =>
        (* the map gets the nil template, which a lookup takes as none *)
        let* tm := gets templates in
        modify (set_templates (delete name tm));;
        fail err
    end.

(** *** The schema binder *)

(** [reflect.VisibleFields(el.Type())]; it is called on structs only. *)
Definition visibleFields (t : ElemType) : list StructField :=
  match t with
  | Struct fields => fields
  | NotStruct _ => []
  end.

(** The first field whose marker is [name], with its index. *)
Fixpoint findField (fields : list StructField) (i : nat) (name : string)
  : option (nat * StructField) :=
  match fields with
  | [] => None
  | f :: fields =>
      if eqs (toSnakeCase (Name f)) name then Some (i, f)
      else findField fields (S i) name
  end.

Definition setField (i : nat) (v : Value) (e : Elem) : Elem :=
  match e with
  | Rec vals => Rec (<[i := v]> vals)
  | Single _ => e
  end.

(** [el.FieldByIndex(f.Index).Set...(v)], [el] being the element [el] of
    the slice. *)
Definition store (el i : nat) (v : Value) : M unit :=
  modify (λ s,
    let sl := slice s in
    set_slice {| elemType := elemType sl;
                 elems := alter (setField i v) el (elems sl);
                 spare := spare sl |} s).

Definition setVal (el : nat) (name text : string) : M unit :=
  let* sl := gets slice in
  match findField (visibleFields (elemType sl)) 0 name with
  | Some (i, f) =>
      if negb (IsExported f)
      then fail ("struct field " +:+ quote (Name f) +:+ " must be exported")
      else
        match FieldKind f with
        | KString => store el i (VString text)
        | KInt =>
            let num := Strings.TrimSpace text in
            match Strconv.ParseInt num with
            | inl err =>
                fail ("invalid value for struct field " +:+ quote (Name f)
                      +:+ ": " +:+ Strconv.NumError quote num err)
            | inr i' => store el i (VInt i')
            end
        | KBool => store el i (VBool true)
        | KOther k =>
            fail ("unexpected type " +:+ quote k +:+ " of struct field "
                  +:+ quote (Name f))
        end
  | None => fail ("unexpected =" +:+ name +:+ "=")
  end.

(** The variables of [parse] that its loop changes.  [el] is the index of
    the element under construction; the map [seen], nil until the first
    title, is the set of its keys. *)
Record locals := {
  el : nat;
  seen : gset string;
  tVal : string;
  first : bool
}.

Definition withContext (title tVal file : string) (err : string) : string :=
  let where_ :=
    if negb (eqs tVal "")
    then "in test with =" +:+ title +:+ "=" +:+ tVal
    else "in file " +:+ quote file in
  err +:+ " " +:+ where_.

(** The marker [name] with its expanded text [text] goes into the record:
    lines 123 to 141 of [parse]. *)
Definition bindMarker (title file : string) (lv : locals) (name text : string)
  : M (option locals) :=
  let* lv :=
    (if eqs name title then
       let* el' :=
         (if bool_decide (name ∈ seen lv) then
            let* sl := gets slice in
            modify (set_slice (addElement sl).1);;
            ret (addElement sl).2
          else ret (el lv)) in
       ret {| el := el'; seen := ∅; tVal := text; first := false |}
     else if first lv then
       fail (withContext title (tVal lv) file
               ("must define =" +:+ title +:+ "= before =" +:+ name +:+ "="))
     else ret lv) in
  if bool_decide (name ∈ seen lv) then
    fail ("found multiple =" +:+ name +:+ "= in test with =" +:+ title
          +:+ "=" +:+ tVal lv)
  else
    onError (withContext title (tVal lv) file) (setVal (el lv) name text);;
    ret (Some {| el := el lv; seen := {[name]} ∪ seen lv;
                 tVal := tVal lv; first := first lv |}).

(** One round of the loop of [parse]: [None] when [parse] returns nil,
    the variables for the next round otherwise. *)
Definition parse_body (title : string) (lv : locals) : M (option locals) :=
  let* file := gets filename in
  let* name := readDef in
  if eqs name "" then
    if first lv
    then fail ("missing =" +:+ title +:+ "= in first test of file "
               +:+ quote file)
    else ret None
  else if eqs name "TEMPL" then
    onError (withContext title (tVal lv) file) templDef;;
    ret (Some lv)
  else if eqs name "SUBST" then
    fail (withContext title (tVal lv) file
            "=SUBST= is only valid at bottom of text block")
  else
    let* text := onError (withContext title (tVal lv) file) readExpandedText in
    bindMarker title file lv name text.

Fixpoint parse_loop (fuel : nat) (title : string) (lv : locals) : M unit :=
  match fuel with
  | O => stuck
  | S fuel =>
      let* next := parse_body title lv in
      match next with
      | None => ret tt
      | Some lv => parse_loop fuel title lv
      end
  end.

Definition parse : M unit :=
  let* sl := gets slice in
  modify (set_slice (addElement sl).1);;
  let el := (addElement sl).2 in
  match elemType sl with
  | NotStruct _ => fail "expecting slice of struct"
  | Struct [] => fail "expecting struct with at least one field"
  | Struct (f0 :: _) =>
      let title := toSnakeCase (Name f0) in
      let* r := gets rest in
      parse_loop (S (len r)) title
        {| el := el; seen := ∅; tVal := ""; first := true |}
  end.

(** [ParseFile]; [disk] is [os.ReadFile].  The second component is the
    caller's [l] after the call. *)
Definition ParseFile (disk : string → result string) (file : string)
    (l : any) : outcome unit * any :=
  match disk file with
  | Error err => (Err err, l)
  | Val data =>
      match l with
      | NotPointer | PointerToOther =>
          (Err "expecting pointer to empty slice", l)
      | PointerToSlice v =>
          if negb (length (elems v) =? 0)%nat
          then (Err "expecting pointer to empty slice", l)
          else
            let s := {| src := data; rest := data; templates := ∅;
                        filename := file; slice := v |} in
            let r := parse s in
            (r.1, PointerToSlice (slice r.2))
      end
  end.

End Parser.

Arguments state : clear implicits.
Arguments M : clear implicits.

(** ** Definitions used by the statements *)

(** The double quote. *)
Definition dq : string := String "034"%char "".

(** An engine for plain templates: a template is its text, texts with an
    action are refused, and [%q] puts its argument between double quotes
    (which is [strconv.Quote] on texts without a character to escape). *)
Definition plainEngine : Engine := {|
  Template := string;
  Data := unit;
  nilData := tt;
  yaml_Unmarshal := λ _, Val tt;
  template_Parse := λ _ text,
    if Strings.Contains text "{{" then Error "template: unexpected action"
    else Val text;
  template_Execute := λ t _, Val t;
  strconv_Quote := λ s, dq +:+ s +:+ dq
|}.

Definition exported (name : string) (k : Kind) : StructField :=
  {| Name := name; PkgPath := ""; FieldKind := k |}.

(** The struct [descr] of the tests, and the schema of scenario B. *)
Definition descr : ElemType :=
  Struct [exported "Title" KString; exported "Input" KString;
          exported "Count" KInt; exported "Todo" KBool].

Definition titleInput : ElemType :=
  Struct [exported "Title" KString; exported "Input" KString].

Definition emptySlice (t : ElemType) : Slice :=
  {| elemType := t; elems := []; spare := [] |}.

(** A document given by its lines. *)
Definition lines (l : list string) : string := String.concat nl l.

(** The state in which [ParseFile] calls [parse]. *)
Definition initial {E : Engine} (file data : string) (v : Slice) : state E :=
  {| src := data; rest := data; templates := ∅; filename := file; slice := v |}.

(** A state in the middle of a document: [before] has been read. *)
Definition reading {E : Engine} (before after : string) (v : Slice) : state E :=
  {| src := before +:+ after; rest := after; templates := ∅;
     filename := "file"; slice := v |}.

(** [s'] is [s] further on in the input: nothing but [rest] differs. *)
Definition advances {E : Engine} (s s' : state E) : Prop :=
  ∃ k, s' = set_rest (drop k (rest s)) s.

(** What every step of the parser keeps: the source, the file name and the
    element type stay, the input only gets shorter, the slice only longer. *)
Definition extends {E : Engine} (s s' : state E) : Prop :=
  src s' = src s ∧ filename s' = filename s
  ∧ elemType (slice s') = elemType (slice s)
  ∧ (length (elems (slice s)) ≤ length (elems (slice s')))%nat
  ∧ ∃ k, rest s' = drop k (rest s).

(** [l] is one line with its newline. *)
Definition wholeLine (l : string) : bool :=
  match Strings.IndexByte l newline with
  | Some i => (i + 1 =? len l)%nat
  | None => false
  end.

(** A line of a block in multi-line form: a whole line that is no marker
    line (an empty line is one). *)
Definition blockLine (l : string) : bool :=
  wholeLine l && eqs (checkDef l) "".

(** A block in multi-line form ends at the end of the input or in front of
    a marker line. *)
Definition blockEnd (tail : string) : bool :=
  eqs tail "" || negb (eqs (checkDef (getLineOf tail)) "").

Fixpoint concatLines (body : list string) : string :=
  match body with
  | [] => ""
  | l :: body => l +:+ concatLines body
  end.

(** The input behind a block: [=END=] is read, another marker line is not. *)
Definition behindBlock (tail : string) : string :=
  if eqs (checkDef (getLineOf tail)) "END" then drop (len "=END=") tail
  else tail.

(** The state in which [readText] finds a block in multi-line form: the
    marker line ends in [first], which is blank; the lines [body] follow,
    then [tail]. *)
Definition multiLine {E : Engine} (s : state E)
    (first : string) (body : list string) (tail : string) : Prop :=
  wholeLine first = true ∧ Strings.TrimSpace first = ""
  ∧ forallb blockLine body = true ∧ blockEnd tail = true
  ∧ rest s = first +:+ concatLines body +:+ tail.

(** The configurations at the head of the loop of [parse]: the first one
    has the variables as [parse] sets them and the input as [ParseFile] sets
    it, all of the source still to be read; a round that does not return
    leads to the next. *)
Inductive reachable {E : Engine} (title : string)
  : locals → state E → Prop :=
  | reach_first (s : state E) (el : nat) :
      src s = rest s →
      reachable title {| el := el; seen := ∅; tVal := ""; first := true |} s
  | reach_next lv s lv' s' :
      reachable title lv s →
      parse_body title lv s = (Ok (Some lv'), s') →
      reachable title lv' s'.

(** Signed decimal integers, as the claim on integer fields words them. *)
Definition allDigits (s : string) : bool :=
  negb (eqs s "") && allBytes isDigitByte s.

Fixpoint digitsValue (acc : Z) (s : string) : Z :=
  match s with
  | "" => acc
  | String c r => digitsValue (acc * 10 + (code c - code "0")) r
  end.

Definition isSign (sign : string) : bool :=
  eqs sign "" || eqs sign "+" || eqs sign "-".

Definition signedValue (sign digits : string) : Z :=
  if eqs sign "-" then - digitsValue 0 digits else digitsValue 0 digits.

Definition inInt64 (v : Z) : bool := (- 2 ^ 63 <=? v) && (v <? 2 ^ 63).

(** The record with the value [v] in field [i] of element [el]. *)
Definition withField {E : Engine} (el i : nat) (v : Value) (s : state E)
  : state E :=
  (store el i v s).2.

(** [m], run from [s], ends in a state related to [s] by [R]. *)
Definition keeps {E : Engine} {A} (R : relation (state E)) (s : state E)
    (m : M E A) : Prop :=
  R s (m s).2.


(** The line at the scanner position is a [=SUBST=] line. *)
Definition substFollows {E : Engine} (s : state E) : bool :=
  eqs (checkDef (getLineOf (rest s))) "SUBST".

(** Behind [=INPUT=]: a block of three lines, the second of them blank,
    closed by [=END=]; the next record follows. *)
Definition blockState : state plainEngine :=
  reading "=INPUT="
    (nl +:+ lines ["abc"; ""; "def"; "=END="; "=TITLE=t2"])
    (emptySlice descr).

(** The same block, with text behind [=END=] on its line. *)
Definition endState : state plainEngine :=
  reading "=INPUT="
    (nl +:+ lines ["abc"; "=END= trailing"; "=TITLE=t2"])
    (emptySlice descr).

(** Behind [=TITLE=] on a line without template call or substitution. *)
Definition plainState : state plainEngine :=
  reading "=TITLE=" (" test" +:+ nl +:+ "=INPUT=abc") (emptySlice descr).

(** A byte that no white space holds: an ASCII character that is no
    space. *)
Definition solid (c : ascii) : Prop := 32 < code c < 128.

(** The sign and the rest of a text. *)
Definition splitSign (p : string) : string * string :=
  match p with
  | String c r =>
      if byteIs c "+" || byteIs c "-" then (String c "", r) else ("", p)
  | "" => ("", "")
  end.

(** The signed decimal integer of 64 bits that [p] writes, if it writes
    one: an optional sign, then digits and nothing else, the value from
    [-2^63] to [2^63 - 1]. *)
Definition signedDecimal64 (p : string) : option Z :=
  let (sign, digits) := splitSign p in
  if allDigits digits && inInt64 (signedValue sign digits)
  then Some (signedValue sign digits)
  else None.

(** The error of [setVal] for the integer field [f] and the text [text]. *)
Definition invalidValue {E : Engine} (f : StructField) (text : string)
    (err : Strconv.NumErr) : string :=
  "invalid value for struct field " +:+ strconv_Quote (Name f) +:+ ": "
  +:+ Strconv.NumError strconv_Quote (Strings.TrimSpace text) err.

(** The field that the marker [name] selects in the records of [s]. *)
Definition fieldOf {E : Engine} (s : state E) (name : string)
  : option (nat * StructField) :=
  findField (visibleFields (elemType (slice s))) 0 name.

(** A state with records of [descr], one of them under construction. *)
Definition recordState : state plainEngine :=
  reading (lines ["=TITLE=t1"; "=COUNT=  -654321"]) ""
    {| elemType := descr; elems := [zeroElem descr]; spare := [] |}.


(** A disk with one file. *)
Definition oneFile (data : string) : string → result string := λ _, Val data.




(** What holds of the variables of [parse] at the head of its loop: once
    a title is bound, the title marker is in [seen]; and [seen] holds markers
    of fields only. *)
Definition wellFormed (title : string) (lv : locals) : Prop :=
  (first lv = false → title ∈ seen lv)
  ∧ ∀ name, name ∈ seen lv → name ≠ "" ∧ name ≠ "TEMPL" ∧ name ≠ "SUBST".

(** The variables of [parse] in front of its first round. *)
Definition firstRound (ix : nat) : locals :=
  {| el := ix; seen := ∅; tVal := ""; first := true |}.

(** A document that sets [INPUT] twice in the record [t1]. *)
Definition twiceInput : string :=
  lines ["=TITLE=t1"; "=INPUT=abc"; "=INPUT=def"].

(** The line at the head of the input, without its newline. *)
Definition firstLine (r : string) : string :=
  match Strings.IndexByte r newline with
  | Some idx => take idx r
  | None => r
  end.



(** Scenario B of the specification. *)
Definition scenarioB : string :=
  lines ["=TEMPL=input"; "number 42 wins"; "=END="; "=TITLE=t1";
         "=INPUT=[[input]]"; "=SUBST=/wins/WINS/"].

(** The name of the template that the match [p] of [templRx] in [text]
    calls. *)
Definition calledName (text : string) (p : nat * nat) : string :=
  let pair := take (p.2 - 2 - (p.1 + 2)) (drop (p.1 + 2) text) in
  match Strings.IndexAny pair [" "; "009"; "010"]%char with
  | Some i => take i pair
  | None => pair
  end.

(** A document that defines the template [a], calls it in the body of
    the template [b], defines [a] anew and then calls both. *)
Definition redefinition : string :=
  lines ["=TEMPL=a"; "one"; "=TEMPL=b"; "<[[a]]>"; "=TEMPL=a"; "two";
         "=TITLE=t1"; "=INPUT=[[b]] [[a]]"].

(** A line, taken without its newline, that [readDef] skips: a line of
    white space only, or a comment. *)
Definition skipped (l : string) : bool :=
  bool_decide (Strings.IndexByte l newline = None)
  && (eqs (Strings.TrimSpace l) "" || headIs "#" (Strings.TrimSpace l)).

(** [name] has a lower-case ASCII letter. *)
Definition hasLower (name : string) : bool :=
  negb (allBytes (λ c, negb (isLowerByte c)) name).

(** In front of a marker line, behind a comment and a blank line. *)
Definition markerState : state plainEngine :=
  reading "" (lines ["# comment"; "  "; "=TITLE= t1"]) (emptySlice descr).

(** In front of a rule, behind the block of [=INPUT=]. *)
Definition substState : state plainEngine :=
  reading ("=INPUT=a wins" +:+ nl)
    (lines ["=SUBST=/wins/WINS/"; "=TITLE=t2"]) (emptySlice descr).

(** A state with the template [input] registered. *)
Definition callState : state plainEngine :=
  set_templates {["input" := "number 42"]}
    (reading "=INPUT=the [[input]] wins" "" (emptySlice descr)).

(** The configuration in which [parse], called by [ParseFile] for the file
    [file] with the text [data] and the slice [v], enters its loop. *)
Definition loopStart {E : Engine} (file data : string) (v : Slice)
  : locals * state E :=
  (firstRound (length (elems v)),
   set_slice (addElement v).1 (initial file data v)).

(** The configuration after [n] rounds of the loop of [parse] from the
    configuration [c], if each of them goes on to the next. *)
Fixpoint rounds {E : Engine} (n : nat) (title : string) (c : locals * state E)
  : option (locals * state E) :=
  match n with
  | O => Some c
  | S n =>
      match parse_body title c.1 c.2 with
      | (Ok (Some lv), s) => rounds n title (lv, s)
      | _ => None
      end
  end.

(** What [ParseFile] returns when the loop of [parse] goes on from [c]. *)
Definition resume {E : Engine} (title : string) (c : locals * state E)
  : outcome unit * any :=
  let r := parse_loop (S (len (rest c.2))) title c.1 c.2 in
  (r.1, PointerToSlice (slice r.2)).

(** A marker that [parse] takes for the marker of a field. *)
Definition fieldMarker (name : string) : Prop :=
  name ≠ "" ∧ name ≠ "TEMPL" ∧ name ≠ "SUBST".

(** The marker [name] passes the tests of [parse] for the order and for
    duplicates: it is the title, or the record has its title and has not
    seen [name]. *)
Definition passes (title : string) (lv : locals) (name : string) : Prop :=
  name = title ∨ (first lv = false ∧ name ∉ seen lv).

(** The marker is the title, read again in a record that has its title. *)
Definition startsRecord (title : string) (lv : locals) (name : string) : bool :=
  eqs name title && bool_decide (name ∈ seen lv).

(** The element that [parse] passes to [setVal] for the marker [name], the
    state in which it does so, and the title value current then. *)
Definition recordOf {E : Engine} (title : string) (lv : locals)
    (name : string) (s : state E) : nat :=
  if startsRecord title lv name then length (elems (slice s)) else el lv.

Definition withRecord {E : Engine} (title : string) (lv : locals)
    (name : string) (s : state E) : state E :=
  if startsRecord title lv name
  then set_slice (addElement (slice s)).1 s else s.

Definition titleValue (title : string) (lv : locals) (name text : string)
  : string :=
  if eqs name title then text else tVal lv.

(** The variables of [parse] behind the round that has bound [name]. *)
Definition bound {E : Engine} (title : string) (lv : locals)
    (name text : string) (s : state E) : locals :=
  {| el := recordOf title lv name s;
     seen := {[name]} ∪ (if eqs name title then ∅ else seen lv);
     tVal := titleValue title lv name text;
     first := false |}.

(** The context that [withContext] adds for the title value [tv]. *)
Definition context {E : Engine} (title tv file : string) : string :=
  if eqs tv "" then "in file " +:+ strconv_Quote file
  else "in test with =" +:+ title +:+ "=" +:+ tv.


(** A document whose second [=INPUT=] calls a template that is not
    defined, and one whose second title does. *)
Definition twiceInputCall : string :=
  lines ["=TITLE=t1"; "=INPUT=abc"; "=INPUT=[[xx]]"].

Definition twiceTitleCall : string :=
  lines ["=TITLE=t1"; "=TITLE=[[xx]]"].

(** A document with two records. *)
Definition twoRecords : string :=
  lines ["=TITLE=t1"; "=INPUT=abc"; "=TITLE=t2"; "=INPUT=def"].

(** The configuration of the loop of [parse] after [n] rounds on the text
    [data], for the slice [v] of the file [file]. *)
Definition reached (n : nat) (title data : string) (v : Slice)
  : locals * state plainEngine :=
  default (loopStart "file" data v) (rounds n title (loopStart "file" data v)).


(** * Properties *)

(** ** Strings *)

Section StringFacts.

Implicit Types (s t u : string) (c : ascii) (n k : nat).

#[local] Arguments take : simpl nomatch.
#[local] Arguments drop : simpl nomatch.

Lemma app_cons c s t : String c s +:+ t = String c (s +:+ t).
Proof. reflexivity. Qed.

Lemma app_nil_l s : "" +:+ s = s.
Proof. reflexivity. Qed.

Lemma app_nil_r s : s +:+ "" = s.
Proof. induction s as [|c s IH]; [done|]. by rewrite app_cons, IH. Qed.

Lemma app_assoc s t u : (s +:+ t) +:+ u = s +:+ t +:+ u.
Proof. induction s as [|c s IH]; [done|]. by rewrite !app_cons, IH. Qed.

Lemma len_app s t : len (s +:+ t) = (len s + len t)%nat.
Proof.
  induction s as [|c s IH]; [done|].
  rewrite app_cons. unfold len in *. simpl. by rewrite IH.
Qed.

Lemma len_zero s : len s = 0%nat → s = "".
Proof. by destruct s. Qed.

Lemma take_0 s : take 0 s = "".
Proof. by destruct s. Qed.

Lemma drop_0 s : drop 0 s = s.
Proof. by destruct s. Qed.

Lemma take_app_len s t : take (len s) (s +:+ t) = s.
Proof.
  induction s as [|c s IH]; [apply take_0|].
  rewrite app_cons. unfold len in *. simpl. by rewrite IH.
Qed.

Lemma drop_app_len s t : drop (len s) (s +:+ t) = t.
Proof.
  induction s as [|c s IH]; [apply drop_0|].
  rewrite app_cons. unfold len in *. by simpl.
Qed.

Lemma take_app_plus s t k : take (len s + k) (s +:+ t) = s +:+ take k t.
Proof.
  induction s as [|c s IH]; [done|].
  rewrite !app_cons. unfold len in *. simpl. by rewrite IH.
Qed.

Lemma drop_app_plus s t k : drop (len s + k) (s +:+ t) = drop k t.
Proof.
  induction s as [|c s IH]; [done|].
  rewrite app_cons. unfold len in *. by simpl.
Qed.

Lemma take_drop n s : take n s +:+ drop n s = s.
Proof.
  revert s. induction n as [|n IH]; intros [|c s]; simpl; try done.
  by rewrite app_cons, IH.
Qed.

Lemma drop_drop n k s : drop k (drop n s) = drop (n + k) s.
Proof.
  revert s. induction n as [|n IH]; intros s; [by rewrite drop_0|].
  destruct s as [|c s]; simpl; [by destruct k|]. apply IH.
Qed.

Lemma len_drop n s : len (drop n s) = (len s - n)%nat.
Proof.
  revert s. induction n as [|n IH]; intros [|c s]; simpl; by auto.
Qed.

Lemma len_take n s : len (take n s) = (n `min` len s)%nat.
Proof.
  revert s. induction n as [|n IH]; intros [|c s]; simpl; try done.
  unfold len in *. simpl. by rewrite IH.
Qed.

Lemma drop_all n s : (len s ≤ n)%nat → drop n s = "".
Proof.
  intros H. apply len_zero. rewrite len_drop. lia.
Qed.

Lemma take_all n s : (len s ≤ n)%nat → take n s = s.
Proof.
  intros H. rewrite <- (take_drop n s) at 2.
  by rewrite (drop_all n s H), app_nil_r.
Qed.

Lemma eqs_true s t : eqs s t = true ↔ s = t.
Proof. unfold eqs. apply bool_decide_eq_true. Qed.

Lemma eqs_false s t : eqs s t = false ↔ s ≠ t.
Proof. unfold eqs. apply bool_decide_eq_false. Qed.

Lemma eqs_refl s : eqs s s = true.
Proof. by apply eqs_true. Qed.

(** *** rev *)

Lemma rev_app s t : rev (s +:+ t) = rev t +:+ rev s.
Proof.
  induction s as [|c s IH]; simpl; [by rewrite app_nil_r|].
  by rewrite IH, app_assoc.
Qed.

Lemma rev_rev s : rev (rev s) = s.
Proof.
  induction s as [|c s IH]; [done|].
  simpl. by rewrite rev_app, IH.
Qed.

Lemma allBytes_app p s t : allBytes p (s +:+ t) = allBytes p s && allBytes p t.
Proof.
  induction s as [|c s IH]; [done|].
  rewrite app_cons. simpl. by rewrite IH, andb_assoc.
Qed.

Lemma allBytes_rev p s : allBytes p (rev s) = allBytes p s.
Proof.
  induction s as [|c s IH]; [done|].
  simpl. rewrite allBytes_app, IH. simpl. by rewrite andb_true_r, andb_comm.
Qed.

(** *** IndexByte and lines *)

Import Strings.

Lemma IndexByte_bound s c i : IndexByte s c = Some i → (i < len s)%nat.
Proof.
  revert i. induction s as [|d s IH]; intros i; simpl; [done|].
  case_bool_decide.
  - intros [= <-]. unfold len. simpl. lia.
  - destruct (IndexByte s c) as [j|]; simpl; [|done].
    intros [= <-]. specialize (IH j eq_refl). unfold len in *. simpl. lia.
Qed.

Lemma IndexByte_split s c i :
  IndexByte s c = Some i →
  s = take i s +:+ String c (drop (S i) s) ∧ IndexByte (take i s) c = None.
Proof.
  revert i. induction s as [|d s IH]; intros i; simpl; [done|].
  case_bool_decide as Hd.
  - intros [= <-]. by subst.
  - destruct (IndexByte s c) as [j|]; simpl; [|done].
    intros [= <-]. destruct (IH j eq_refl) as [H1 H2].
    simpl. rewrite app_cons, <- H1. split; [done|].
    by rewrite bool_decide_false, H2.
Qed.

Lemma IndexByte_app_None s t c :
  IndexByte s c = None →
  IndexByte (s +:+ t) c = (λ i, len s + i)%nat <$> IndexByte t c.
Proof.
  induction s as [|d s IH]; simpl.
  - intros _. rewrite app_nil_l. by destruct (IndexByte t c).
  - case_bool_decide; [done|].
    destruct (IndexByte s c); [done|]. intros _.
    rewrite IH by done. by destruct (IndexByte t c).
Qed.

Lemma IndexByte_app_Some s t c i :
  IndexByte s c = Some i → IndexByte (s +:+ t) c = Some i.
Proof.
  revert i. induction s as [|d s IH]; intros i; simpl; [done|].
  case_bool_decide; [done|].
  destruct (IndexByte s c) as [j|]; simpl; [|done].
  intros [= <-]. by rewrite (IH j).
Qed.

Lemma getLineOf_prefix r : ∃ k, getLineOf r = take k r ∧ (k ≤ len r)%nat.
Proof.
  unfold getLineOf. destruct (IndexByte r newline) as [i|] eqn:Hi.
  - exists (i + 1)%nat. split; [done|]. apply IndexByte_bound in Hi. lia.
  - exists (len r). split; [|done]. by rewrite take_all.
Qed.

Lemma getLineOf_len r : (len (getLineOf r) ≤ len r)%nat.
Proof.
  destruct (getLineOf_prefix r) as (k & -> & Hk). rewrite len_take. lia.
Qed.

Lemma getLineOf_take r : take (len (getLineOf r)) r = getLineOf r.
Proof.
  destruct (getLineOf_prefix r) as (k & -> & Hk).
  rewrite len_take. by replace (k `min` len r)%nat with k by lia.
Qed.

Lemma getLineOf_nonempty r : r ≠ "" → getLineOf r ≠ "".
Proof.
  unfold getLineOf. destruct r as [|c r]; [done|]. intros _.
  destruct (IndexByte _ _) as [i|]; [|done].
  by replace (i + 1)%nat with (S i) by lia.
Qed.

Lemma wholeLine_getLineOf l t : wholeLine l = true → getLineOf (l +:+ t) = l.
Proof.
  unfold wholeLine, getLineOf.
  destruct (IndexByte l newline) as [i|] eqn:Hi; [|done].
  intros Hl%Nat.eqb_eq. rewrite (IndexByte_app_Some _ _ _ _ Hi).
  rewrite Hl. apply take_app_len.
Qed.

Lemma wholeLine_nonempty l : wholeLine l = true → l ≠ "".
Proof. by destruct l. Qed.

End StringFacts.

(** ** The monad *)

Section MonadFacts.

Context {E : Engine}.
Implicit Types (s : state E).

Lemma set_rest_id s : set_rest (rest s) s = s.
Proof. by destruct s. Qed.

Lemma set_rest_twice r r' s : set_rest r' (set_rest r s) = set_rest r' s.
Proof. done. Qed.

Lemma bind_Ok {A B} (m : M E A) (k : A → M E B) s a s' :
  m s = (Ok a, s') → bind m k s = k a s'.
Proof. unfold bind. by intros ->. Qed.

Lemma bind_Err {A B} (m : M E A) (k : A → M E B) s e s' :
  m s = (Err e, s') → bind m k s = (Err e, s').
Proof. unfold bind. by intros ->. Qed.

Lemma bind_inv_Ok {A B} (m : M E A) (k : A → M E B) s b s' :
  bind m k s = (Ok b, s') →
  ∃ a s1, m s = (Ok a, s1) ∧ k a s1 = (Ok b, s').
Proof.
  unfold bind. destruct (m s) as [[a|e|] s1]; [|done..]. eauto.
Qed.

Lemma bind_inv_Err {A B} (m : M E A) (k : A → M E B) s e s' :
  bind m k s = (Err e, s') →
  m s = (Err e, s') ∨ ∃ a s1, m s = (Ok a, s1) ∧ k a s1 = (Err e, s').
Proof.
  unfold bind. destruct (m s) as [[a|e1|] s1]; intros H; simplify_eq; eauto.
Qed.

Lemma onError_inv_Ok {A} f (m : M E A) s a s' :
  onError f m s = (Ok a, s') → m s = (Ok a, s').
Proof. unfold onError. by destruct (m s) as [[?|?|] ?]. Qed.

Lemma onError_inv_Err {A} f (m : M E A) s e s' :
  onError f m s = (Err e, s') → ∃ e0, m s = (Err e0, s') ∧ e = f e0.
Proof.
  unfold onError. destruct (m s) as [[?|e0|] ?]; [done| |done].
  intros [= <- <-]. eauto.
Qed.

(** *** Relations kept by a computation *)

Section Keeps.

Variable R : relation (state E).
Hypothesis R_refl : ∀ s, R s s.
Hypothesis R_trans : ∀ s1 s2 s3, R s1 s2 → R s2 s3 → R s1 s3.

Lemma keeps_ret {A} (a : A) s : keeps R s (ret a).
Proof. apply R_refl. Qed.

Lemma keeps_fail {A} e s : keeps R s (fail (A:=A) e).
Proof. apply R_refl. Qed.

Lemma keeps_stuck {A} s : keeps R s (stuck (A:=A)).
Proof. apply R_refl. Qed.

Lemma keeps_gets {A} (f : state E → A) s : keeps R s (gets f).
Proof. apply R_refl. Qed.

Lemma keeps_lift {A} (r : result A) s : keeps R s (lift r).
Proof. destruct r; apply R_refl. Qed.

Lemma keeps_modify f s : R s (f s) → keeps R s (modify f).
Proof. done. Qed.

Lemma keeps_bind {A B} (m : M E A) (k : A → M E B) s :
  keeps R s m →
  (∀ a s', m s = (Ok a, s') → keeps R s' (k a)) →
  keeps R s (bind m k).
Proof.
  unfold keeps, bind. intros Hm Hk.
  destruct (m s) as [[a|e|] s'] eqn:Heq; simpl in *; [|done..].
  eapply R_trans; [exact Hm|]. by apply Hk.
Qed.

Lemma keeps_onError {A} f (m : M E A) s :
  keeps R s m → keeps R s (onError f m).
Proof. unfold keeps, onError. by destruct (m s) as [[?|?|] ?]. Qed.

End Keeps.

Lemma advances_refl s : advances s s.
Proof. exists 0%nat. by rewrite drop_0, set_rest_id. Qed.

Lemma advances_trans s1 s2 s3 :
  advances s1 s2 → advances s2 s3 → advances s1 s3.
Proof.
  intros [k ->] [j ->]. exists (k + j)%nat. simpl.
  by rewrite drop_drop.
Qed.

Lemma advances_drop k s : advances s (set_rest (drop k (rest s)) s).
Proof. by exists k. Qed.

Lemma extends_refl s : extends s s.
Proof. repeat split; try done. exists 0%nat. by rewrite drop_0. Qed.

Lemma extends_trans s1 s2 s3 :
  extends s1 s2 → extends s2 s3 → extends s1 s3.
Proof.
  intros (? & ? & ? & ? & k & Hk) (? & ? & ? & ? & j & Hj).
  repeat split; try congruence; [lia|].
  exists (k + j)%nat. by rewrite Hj, Hk, drop_drop.
Qed.

Lemma advances_extends s s' : advances s s' → extends s s'.
Proof. intros [k ->]. repeat split; try done. by exists k. Qed.

Lemma extends_len s s' : extends s s' → (len (rest s') ≤ len (rest s))%nat.
Proof. intros (_ & _ & _ & _ & k & ->). rewrite len_drop. lia. Qed.

(** *** Fuel *)








End MonadFacts.

(** ** The scanner only moves forward *)

Section ScannerFacts.

Context {E : Engine}.
Implicit Types (s : state E).

#[local] Arguments take : simpl nomatch.
#[local] Arguments drop : simpl nomatch.

Lemma getLine_eq s : getLine s = (Ok (getLineOf (rest s)), s).
Proof. done. Qed.

Ltac adv_go :=
  repeat
    lazymatch goal with
    | |- keeps _ _ (ret _) => apply (keeps_ret advances advances_refl)
    | |- keeps _ _ (fail _) => apply (keeps_fail advances advances_refl)
    | |- keeps _ _ stuck => apply (keeps_stuck advances advances_refl)
    | |- keeps _ _ (gets _) => apply (keeps_gets advances advances_refl)
    | |- keeps _ _ getLine => apply (keeps_gets advances advances_refl)
    | |- keeps _ _ (lift _) => apply (keeps_lift advances advances_refl)
    | |- keeps _ _ (onError _ _) => apply (keeps_onError advances)
    | |- keeps _ _ (modify (set_rest (drop _ _))) =>
        apply keeps_modify, advances_drop
    | |- keeps _ _ (bind _ _) =>
        apply (keeps_bind advances advances_trans);
        [|let H := fresh "Hrun" in
          intros ?a ?s H;
          lazymatch type of H with
          | gets _ _ = _ => unfold gets in H; simplify_eq
          | modify _ _ = _ => unfold modify in H; simplify_eq
          | getLine _ = _ => rewrite getLine_eq in H; simplify_eq
          | currentLine _ = _ => unfold currentLine, gets in H; simplify_eq
          | _ => idtac
          end]
    | |- keeps _ _ currentLine => apply (keeps_gets advances advances_refl)
    | |- keeps _ _ (match ?x with _ => _ end) => destruct x
    end.

Lemma readDef_skip_advances fuel s : keeps advances s (readDef_skip fuel).
Proof.
  revert s. induction fuel as [|fuel IH]; intros s; simpl; adv_go.
  apply IH.
Qed.

Lemma readDef_advances s : keeps advances s readDef.
Proof.
  unfold readDef. adv_go. apply readDef_skip_advances.
Qed.

Lemma readText_loop_advances fuel text size s :
  keeps advances s (readText_loop fuel text size).
Proof.
  revert size s. induction fuel as [|fuel IH]; intros size s; simpl; adv_go.
  apply IH.
Qed.

Lemma readText_advances s : keeps advances s readText.
Proof.
  unfold readText. adv_go. apply readText_loop_advances.
Qed.

Lemma doTemplSubst_advances text s : keeps advances s (doTemplSubst text).
Proof. unfold doTemplSubst. adv_go. Qed.

Lemma applySubst_loop_advances fuel text s :
  keeps advances s (applySubst_loop fuel text).
Proof.
  revert text s. induction fuel as [|fuel IH]; intros text s; simpl; adv_go.
  apply IH.
Qed.

Lemma applySubst_advances text s : keeps advances s (applySubst text).
Proof. unfold applySubst. adv_go. apply applySubst_loop_advances. Qed.

Lemma readExpandedText_advances s : keeps advances s readExpandedText.
Proof.
  unfold readExpandedText. adv_go;
    [apply readText_advances|apply doTemplSubst_advances
    |apply applySubst_advances].
Qed.

Lemma readTemplName_advances s : keeps advances s readTemplName.
Proof.
  unfold readTemplName. adv_go.
  destruct (Strings.IndexByte _ _); apply advances_drop.
Qed.

End ScannerFacts.

(** ** The block reader *)

Section BlockFacts.

Context {E : Engine}.
Implicit Types (s : state E).

#[local] Arguments take : simpl nomatch.
#[local] Arguments drop : simpl nomatch.

Lemma blockLine_inv l :
  blockLine l = true → wholeLine l = true ∧ checkDef l = "" ∧ l ≠ "".
Proof.
  unfold blockLine. intros [Hw Hc%eqs_true]%andb_true_iff.
  eauto using wholeLine_nonempty.
Qed.

Lemma concatLines_len body :
  forallb blockLine body = true → (length body ≤ len (concatLines body))%nat.
Proof.
  induction body as [|l body IH]; simpl; [lia|].
  intros [Hl Hb]%andb_true_iff. apply blockLine_inv in Hl as (_ & _ & Hl).
  rewrite len_app. specialize (IH Hb).
  destruct l; [done|]. unfold len in *. simpl. lia.
Qed.

Lemma checkDef_empty : checkDef "" = "".
Proof. done. Qed.

(** The loop of [readText] reads the lines of the block and stops in front
    of [tail]. *)
Lemma readText_loop_block body : ∀ fuel text size s tail,
  forallb blockLine body = true →
  blockEnd tail = true →
  rest s = concatLines body +:+ tail →
  (length body < fuel)%nat →
  readText_loop fuel text size s
  = (Ok (take (size + len (concatLines body)) text),
     set_rest (behindBlock tail) s).
Proof.
  induction body as [|l body IH]; intros fuel text size s tail Hb Ht Hr Hf;
    (destruct fuel as [|fuel]; [simpl in Hf; lia|]).
  - simpl in Hr. rewrite app_nil_l in Hr.
    cbn [readText_loop concatLines]. unfold bind at 1.
    rewrite getLine_eq, Hr.
    change (len "") with 0%nat. rewrite Nat.add_0_r.
    unfold behindBlock. unfold blockEnd in Ht.
    destruct (eqs tail "") eqn:Hempty.
    + apply eqs_true in Hempty as ->.
      change (getLineOf "") with "". change (checkDef "") with "".
      change (eqs "" "") with true. change (eqs "" "END") with false.
      cbn. rewrite <- Hr. by rewrite set_rest_id.
    + simpl in Ht. rewrite Ht. cbn [orb].
      destruct (eqs (checkDef (getLineOf tail)) "END").
      * unfold bind, gets, modify, ret. simpl. by rewrite Hr.
      * unfold bind, ret. simpl. by rewrite <- Hr, set_rest_id.
  - simpl in Hb. apply andb_true_iff in Hb as [Hl Hb].
    apply blockLine_inv in Hl as (Hw & Hc & Hne).
    cbn [concatLines] in Hr. rewrite app_assoc in Hr.
    cbn [readText_loop concatLines]. unfold bind at 1.
    rewrite getLine_eq, Hr, wholeLine_getLineOf by done.
    rewrite Hc. apply eqs_false in Hne. rewrite Hne. cbn [eqs negb orb].
    change (eqs "" "") with true. cbn [negb orb].
    unfold bind at 1. unfold gets at 1. unfold bind at 1. unfold modify at 1.
    rewrite Hr, drop_app_len.
    rewrite (IH fuel text (size + len l)%nat _ tail);
      [|done|done|done|simpl in Hf; lia].
    by rewrite len_app, Nat.add_assoc.
Qed.

Lemma readText_multiLine s first body tail :
  multiLine s first body tail →
  readText s = (Ok (concatLines body), set_rest (behindBlock tail) s).
Proof.
  intros (Hw & Hf & Hb & Ht & Hr).
  unfold readText. unfold bind at 1. rewrite getLine_eq, Hr.
  rewrite wholeLine_getLineOf by done.
  unfold bind at 1. unfold gets at 1. unfold bind at 1. unfold modify at 1.
  rewrite Hr, drop_app_len, Hf.
  change (eqs "" "") with true. cbn [negb].
  unfold bind at 1. unfold gets at 1. cbn [rest set_rest].
  rewrite (readText_loop_block body _ _ 0 _ tail); try done.
  - cbn [Nat.add]. by rewrite take_app_len.
  - rewrite len_app. pose proof (concatLines_len body Hb). lia.
Qed.

Lemma checkDef_END u : checkDef ("=END=" +:+ u) = "END".
Proof. done. Qed.

Lemma getLineOf_END t : ∃ u, getLineOf ("=END=" +:+ t) = "=END=" +:+ u.
Proof.
  unfold getLineOf.
  rewrite (IndexByte_app_None "=END=" t newline) by done.
  destruct (Strings.IndexByte t newline) as [i|]; simpl; [|by exists t].
  exists (take (i + 1) t).
  by rewrite <- (take_app_plus "=END=" t (i + 1)).
Qed.

Lemma behindBlock_END t : behindBlock ("=END=" +:+ t) = t.
Proof.
  unfold behindBlock. destruct (getLineOf_END t) as [u ->].
  by rewrite checkDef_END.
Qed.

Lemma blockEnd_END t : blockEnd ("=END=" +:+ t) = true.
Proof.
  unfold blockEnd. destruct (getLineOf_END t) as [u ->].
  by rewrite checkDef_END.
Qed.

End BlockFacts.

(** ** The expansion pipeline on plain blocks *)

Section ExpansionFacts.

Context {E : Engine}.
Implicit Types (s : state E).

#[local] Arguments take : simpl nomatch.
#[local] Arguments drop : simpl nomatch.

Lemma Contains_cons c r sub :
  Strings.Contains (String c r) sub
  = Strings.HasPrefix (String c r) sub || Strings.Contains r sub.
Proof. done. Qed.

Lemma findAll_no_call text : ∀ pos,
  Strings.Contains text "[[" = false → Regexp.findAll 0 pos text = [].
Proof.
  induction text as [|c r IH]; intros pos; [done|].
  rewrite Contains_cons. intros [Hp Hr]%orb_false_iff.
  cbn [Regexp.findAll]. unfold Regexp.matchAt. rewrite Hp. by apply IH.
Qed.

Lemma doTemplSubst_no_call text s :
  Strings.Contains text "[[" = false → doTemplSubst text s = (Ok text, s).
Proof.
  intros H. unfold doTemplSubst, bind, gets, Regexp.FindAllStringIndex.
  rewrite findAll_no_call by done. cbn. by rewrite ?drop_0.
Qed.

Lemma applySubst_no_subst text s :
  substFollows s = false → applySubst text s = (Ok text, s).
Proof.
  unfold substFollows. intros H.
  unfold applySubst, bind, gets. cbn [applySubst_loop].
  unfold bind. rewrite getLine_eq, H. done.
Qed.

(** C8: the expansion pipeline returns a block without a template call
    [[[]] and without a [=SUBST=] line at the scanner position as the block
    reader has read it, and leaves the scanner where the block reader has
    left it. *)
Theorem expansion_identity_on_plain_block s raw s1 :
  readText s = (Ok raw, s1) →
  Strings.Contains raw "[[" = false →
  substFollows s1 = false →
  readExpandedText s = (Ok raw, s1).
Proof.
  intros Hread Hcall Hsubst. unfold readExpandedText.
  rewrite (bind_Ok _ _ _ _ _ Hread).
  rewrite (bind_Ok _ _ _ _ _ (doTemplSubst_no_call raw s1 Hcall)).
  by apply applySubst_no_subst.
Qed.

(** C3, as the code has it: in multi-line form the block reader reads
    every line up to the first marker line or the end of the input.  A blank
    line is a line of the block like any other ([blockLine] holds of it);
    [=END=] is read, another marker line is left. *)
Theorem readText_reads_up_to_marker_or_eof s first body tail :
  multiLine s first body tail →
  readText s = (Ok (concatLines body), set_rest (behindBlock tail) s).
Proof. apply readText_multiLine. Qed.

(** C9, as the code has it: of the line that closes a block the block
    reader reads the five bytes [=END=]; what follows them on the line, the
    newline included, stays in the input. *)
Theorem readText_reads_END_marker_only s first body t :
  wholeLine first = true →
  Strings.TrimSpace first = "" →
  forallb blockLine body = true →
  rest s = first +:+ concatLines body +:+ "=END=" +:+ t →
  readText s = (Ok (concatLines body), set_rest t s).
Proof.
  intros Hw Hf Hb Hr.
  rewrite (readText_multiLine s first body ("=END=" +:+ t)).
  - by rewrite behindBlock_END.
  - repeat split; try done. apply blockEnd_END.
Qed.

End ExpansionFacts.

Lemma expansion_identity_witness :
  readExpandedText plainState
  = (Ok "test", set_rest "=INPUT=abc" plainState).
Proof.
  apply (expansion_identity_on_plain_block plainState); reflexivity.
Defined.

(** C3, against the claim: the blank line behind [abc] does not end the
    block; the line [def] behind it is read as well. *)
Lemma blank_line_does_not_end_block :
  (readText blockState).1 = Ok (lines ["abc"; ""; "def"] +:+ nl)
  ∧ (readText blockState).1 ≠ Ok ("abc" +:+ nl).
Proof. split; [reflexivity|discriminate]. Qed.

Lemma readText_reads_up_to_marker_witness :
  readText blockState
  = (Ok (concatLines ["abc" +:+ nl; nl; "def" +:+ nl]),
     set_rest (behindBlock ("=END=" +:+ nl +:+ "=TITLE=t2")) blockState).
Proof.
  apply (readText_reads_up_to_marker_or_eof blockState nl).
  repeat split; reflexivity.
Defined.

(** C9, against the claim: behind the block the text that follows [=END=]
    on its line is still in the input. *)
Lemma END_line_is_not_read_whole :
  rest (readText endState).2 = " trailing" +:+ nl +:+ "=TITLE=t2"
  ∧ rest (readText endState).2 ≠ "=TITLE=t2".
Proof. split; [reflexivity|discriminate]. Qed.

Lemma readText_reads_END_marker_witness :
  readText endState
  = (Ok (concatLines ["abc" +:+ nl]),
     set_rest (" trailing" +:+ nl +:+ "=TITLE=t2") endState).
Proof.
  apply (readText_reads_END_marker_only endState nl); reflexivity.
Defined.

(** ** Signed decimal integers *)

Section StrconvFacts.

Import Strconv.

Lemma code_range c : 0 ≤ code c < 256.
Proof.
  unfold code. pose proof (N_ascii_bounded c) as Hc.
  split; [apply N2Z.is_nonneg|]. by apply (N2Z.inj_lt _ 256).
Qed.

Lemma isDigitByte_code c : isDigitByte c = true ↔ 48 ≤ code c ≤ 57.
Proof.
  unfold isDigitByte, between.
  change (code "0") with 48. change (code "9") with 57.
  rewrite andb_true_iff, !Z.leb_le. done.
Qed.

Lemma digitsValue_ge s : ∀ n,
  allBytes isDigitByte s = true → 0 ≤ n → n ≤ digitsValue n s.
Proof.
  induction s as [|c r IH]; intros n; simpl; [lia|].
  intros [Hc Hr]%andb_true_iff Hn. apply isDigitByte_code in Hc.
  change (code "0") with 48.
  etrans; [|apply IH; [done|lia]]. lia.
Qed.

Lemma parseUintLoop_ok s : ∀ n,
  allBytes isDigitByte s = true → 0 ≤ n → digitsValue n s ≤ maxUint64 →
  parseUintLoop s n = inr (digitsValue n s).
Proof.
  induction s as [|c r IH]; intros n; [done|].
  cbn [allBytes digitsValue parseUintLoop].
  intros [Hc Hr]%andb_true_iff Hn Hmax. rewrite Hc.
  apply isDigitByte_code in Hc. change (code "0") with 48 in *.
  assert (n * 10 + (code c - 48) ≤ maxUint64) as Hstep.
  { etrans; [|exact Hmax]. apply digitsValue_ge; [done|lia]. }
  unfold cutoff10, maxUint64 in *.
  change (2 ^ 64) with 18446744073709551616 in *.
  change ((18446744073709551616 - 1) `div` 10 + 1) with 1844674407370955162.
  rewrite Z.mod_small by lia.
  destruct (Z.leb_spec 1844674407370955162 n); [lia|].
  destruct (Z.ltb_spec (n * 10 + (code c - 48)) (n * 10)); [lia|].
  destruct (Z.ltb_spec (18446744073709551616 - 1) (n * 10 + (code c - 48)));
    [lia|].
  cbn [orb]. apply IH; [done|lia|done].
Qed.

Lemma parseUintLoop_inv s : ∀ n v,
  0 ≤ n ≤ maxUint64 →
  parseUintLoop s n = inr v →
  allBytes isDigitByte s = true ∧ v = digitsValue n s ∧ 0 ≤ v ≤ maxUint64.
Proof.
  induction s as [|c r IH]; intros n v Hn.
  { cbn. intros [= <-]. done. }
  cbn [allBytes digitsValue parseUintLoop].
  destruct (isDigitByte c) eqn:Hc; [|done].
  apply isDigitByte_code in Hc. change (code "0") with 48 in *.
  unfold cutoff10, maxUint64 in *.
  change (2 ^ 64) with 18446744073709551616 in *.
  change ((18446744073709551616 - 1) `div` 10 + 1) with 1844674407370955162.
  destruct (Z.leb_spec 1844674407370955162 n); [done|].
  destruct (Z_lt_le_dec (n * 10 + (code c - 48)) 18446744073709551616).
  - rewrite Z.mod_small by lia.
    destruct (Z.ltb_spec (n * 10 + (code c - 48)) (n * 10)); [lia|].
    destruct (Z.ltb_spec (18446744073709551616 - 1) (n * 10 + (code c - 48)));
      [lia|].
    cbn [orb andb]. intros Hrec. by apply IH in Hrec; [|lia].
  - assert ((n * 10 + (code c - 48)) `mod` 18446744073709551616
            = n * 10 + (code c - 48) - 18446744073709551616) as ->.
    { symmetry. apply (Z.mod_unique_pos _ _ 1); lia. }
    destruct (Z.ltb_spec (n * 10 + (code c - 48) - 18446744073709551616)
                (n * 10)); [done|lia].
Qed.

Lemma allDigits_inv s :
  allDigits s = true → s ≠ "" ∧ allBytes isDigitByte s = true.
Proof.
  unfold allDigits. intros [Hne%negb_true_iff Hd]%andb_true_iff.
  by apply eqs_false in Hne.
Qed.

Lemma ParseUint_ok s :
  allDigits s = true → digitsValue 0 s ≤ maxUint64 →
  ParseUint s = inr (digitsValue 0 s).
Proof.
  intros [Hne Hd]%allDigits_inv Hmax. unfold ParseUint.
  apply eqs_false in Hne. rewrite Hne. by apply parseUintLoop_ok.
Qed.

Lemma ParseUint_inv s v :
  ParseUint s = inr v →
  allDigits s = true ∧ v = digitsValue 0 s ∧ 0 ≤ v ≤ maxUint64.
Proof.
  unfold ParseUint, allDigits. destruct (eqs s "") eqn:Hs; [done|].
  intros Hloop. by apply parseUintLoop_inv in Hloop.
Qed.

Lemma digit_not_sign c :
  isDigitByte c = true → c ≠ "+"%char ∧ c ≠ "-"%char.
Proof.
  intros Hc%isDigitByte_code. split; intros ->.
  - change (code "+") with 43 in Hc. lia.
  - change (code "-") with 45 in Hc. lia.
Qed.

(** [ParseInt] accepts the signed decimal integers of 64 bits. *)
Lemma ParseInt_ok sign digits :
  isSign sign = true → allDigits digits = true →
  inInt64 (signedValue sign digits) = true →
  ParseInt (sign +:+ digits) = inr (signedValue sign digits).
Proof.
  intros Hs Hd Hr. pose proof Hd as [Hne Hall]%allDigits_inv.
  pose proof (digitsValue_ge digits 0 Hall ltac:(done)) as Hpos.
  unfold inInt64 in Hr. apply andb_true_iff in Hr as [Hlo Hhi].
  apply Z.leb_le in Hlo. apply Z.ltb_lt in Hhi.
  change (2 ^ 63) with 9223372036854775808 in *.
  unfold isSign in Hs.
  apply orb_true_iff in Hs as [[Hs|Hs]%orb_true_iff|Hs];
    apply eqs_true in Hs; subst sign; unfold signedValue in *.
  - change (eqs "" "-") with false in *. rewrite app_nil_l.
    destruct digits as [|c r]; [done|]. cbn [allBytes] in Hall.
    apply andb_true_iff in Hall as [Hc _].
    apply digit_not_sign in Hc as [Hp Hm].
    unfold ParseInt. rewrite !bool_decide_false by done. cbn [orb].
    rewrite ParseUint_ok; [|done|unfold maxUint64; lia].
    change (2 ^ 63) with 9223372036854775808. cbn [negb andb].
    by destruct (Z.leb_spec 9223372036854775808 (digitsValue 0 (String c r)));
      [lia|].
  - change (eqs "+" "-") with false in *.
    change ("+" +:+ digits) with (String "+" digits).
    unfold ParseInt.
    change (bool_decide ("+"%char = "+"%char)) with true.
    change (bool_decide ("+"%char = "-"%char)) with false. cbn [orb].
    rewrite ParseUint_ok; [|done|unfold maxUint64; lia].
    change (2 ^ 63) with 9223372036854775808. cbn [negb andb].
    by destruct (Z.leb_spec 9223372036854775808 (digitsValue 0 digits));
      [lia|].
  - change (eqs "-" "-") with true in *. cbn beta iota in Hhi, Hlo.
    change ("-" +:+ digits) with (String "-" digits).
    unfold ParseInt.
    change (bool_decide ("-"%char = "+"%char)) with false.
    change (bool_decide ("-"%char = "-"%char)) with true. cbn [orb].
    rewrite ParseUint_ok; [|done|unfold maxUint64; lia].
    change (2 ^ 63) with 9223372036854775808. cbn [negb andb].
    by destruct (Z.ltb_spec 9223372036854775808 (digitsValue 0 digits));
      [lia|].
Qed.

(** And nothing else. *)
Lemma ParseInt_inv p v :
  ParseInt p = inr v →
  ∃ sign digits,
    p = sign +:+ digits ∧ isSign sign = true ∧ allDigits digits = true
    ∧ v = signedValue sign digits ∧ inInt64 v = true.
Proof.
  unfold ParseInt. destruct p as [|c r]; [done|].
  destruct (bool_decide (c = "+"%char)) eqn:Hplus;
    [|destruct (bool_decide (c = "-"%char)) eqn:Hminus]; cbn [orb].
  - apply bool_decide_eq_true in Hplus as ->.
    change (bool_decide ("+"%char = "-"%char)) with false.
    destruct (ParseUint r) as [[]|un] eqn:Hun; [done..|].
    apply ParseUint_inv in Hun as (Hd & -> & Hlo & Hhi).
    cbn [negb andb]. change (2 ^ 63) with 9223372036854775808.
    destruct (Z.leb_spec 9223372036854775808 (digitsValue 0 r)); [done|].
    intros [= <-]. exists "+", r. repeat split; try done.
    unfold inInt64. change (2 ^ 63) with 9223372036854775808.
    apply andb_true_iff. rewrite Z.leb_le, Z.ltb_lt. lia.
  - apply bool_decide_eq_true in Hminus as ->.
    destruct (ParseUint r) as [[]|un] eqn:Hun; [done..|].
    apply ParseUint_inv in Hun as (Hd & -> & Hlo & Hhi).
    cbn [negb andb]. change (2 ^ 63) with 9223372036854775808.
    destruct (Z.ltb_spec 9223372036854775808 (digitsValue 0 r)); [done|].
    intros [= <-]. exists "-", r. repeat split; try done.
    unfold inInt64. change (2 ^ 63) with 9223372036854775808.
    apply andb_true_iff. rewrite Z.leb_le, Z.ltb_lt.
    change (signedValue "-" r) with (- digitsValue 0 r). lia.
  - destruct (ParseUint (String c r)) as [[]|un] eqn:Hun; [done..|].
    apply ParseUint_inv in Hun as (Hd & -> & Hlo & Hhi).
    cbn [negb andb]. change (2 ^ 63) with 9223372036854775808.
    destruct (Z.leb_spec 9223372036854775808 (digitsValue 0 (String c r)));
      [done|].
    intros [= <-]. exists "", (String c r). repeat split; try done.
    unfold inInt64. change (2 ^ 63) with 9223372036854775808.
    apply andb_true_iff. rewrite Z.leb_le, Z.ltb_lt.
    change (digitsValue _ r) with (digitsValue 0 (String c r)). lia.
Qed.

End StrconvFacts.

(** ** White space around a text *)

Section TrimFacts.

Import Strings.

Lemma asciiSpace_code c : asciiSpace c = true → code c ≤ 32.
Proof.
  destruct c as [[] [] [] [] [] [] [] []]; intros H;
    solve [discriminate H | by vm_compute].
Qed.

Lemma byteIs_true a b : byteIs a b = true → a = b.
Proof. unfold byteIs. by intros ?%bool_decide_eq_true. Qed.

Lemma space2_code b0 b1 :
  space2 b0 b1 = true → 128 ≤ code b0 ∧ 128 ≤ code b1.
Proof.
  unfold space2.
  intros [->%byteIs_true [->%byteIs_true| ->%byteIs_true]%orb_true_iff]
    %andb_true_iff; by vm_compute.
Qed.

Lemma space3_code b0 b1 b2 :
  space3 b0 b1 b2 = true → 128 ≤ code b0 ∧ 128 ≤ code b2.
Proof.
  unfold space3. rewrite !orb_true_iff, !andb_true_iff.
  intros [[[[[->%byteIs_true _] ->%byteIs_true]
           |[[->%byteIs_true _] Hb2]]
          |[[->%byteIs_true _] ->%byteIs_true]]
         |[[->%byteIs_true _] ->%byteIs_true]];
    try (by vm_compute).
  split; [by vm_compute|].
  rewrite !orb_true_iff in Hb2.
  destruct Hb2 as [[[Hb2| ->%byteIs_true]| ->%byteIs_true]| ->%byteIs_true];
    try (by vm_compute).
  unfold between in Hb2. apply andb_true_iff in Hb2 as [Hb2 _].
  apply Z.leb_le in Hb2. by change (code "128") with 128 in Hb2.
Qed.

Lemma TrimLeft_solid c r : solid c → TrimLeft (String c r) = String c r.
Proof.
  intros [Hlo Hhi]. cbn [TrimLeft].
  destruct (asciiSpace c) eqn:Hs; [apply asciiSpace_code in Hs; lia|].
  destruct r as [|b1 r1]; [done|].
  destruct (space2 c b1) eqn:H2; [apply space2_code in H2; lia|].
  destruct r1 as [|b2 r2]; [done|].
  destruct (space3 c b1 b2) eqn:H3; [apply space3_code in H3; lia|done].
Qed.

Lemma trimLeftRev_solid c r : solid c → trimLeftRev (String c r) = String c r.
Proof.
  intros [Hlo Hhi]. cbn [trimLeftRev].
  destruct (asciiSpace c) eqn:Hs; [apply asciiSpace_code in Hs; lia|].
  destruct r as [|b1 r1]; [done|].
  destruct (space2 b1 c) eqn:H2; [apply space2_code in H2; lia|].
  destruct r1 as [|b2 r2]; [done|].
  destruct (space3 b2 b1 c) eqn:H3; [apply space3_code in H3; lia|done].
Qed.

Lemma TrimLeft_spaces ws x :
  allBytes asciiSpace ws = true → TrimLeft (ws +:+ x) = TrimLeft x.
Proof.
  induction ws as [|c ws IH]; [done|].
  cbn [allBytes]. intros [Hc Hws]%andb_true_iff.
  rewrite app_cons. cbn [TrimLeft]. rewrite Hc. by apply IH.
Qed.

Lemma trimLeftRev_spaces ws x :
  allBytes asciiSpace ws = true → trimLeftRev (ws +:+ x) = trimLeftRev x.
Proof.
  induction ws as [|c ws IH]; [done|].
  cbn [allBytes]. intros [Hc Hws]%andb_true_iff.
  rewrite app_cons. cbn [trimLeftRev]. rewrite Hc. by apply IH.
Qed.

(** [TrimSpace] takes the white space off a text that begins and ends with
    a solid byte. *)
Lemma TrimSpace_surround ws1 ws2 c r d r' :
  allBytes asciiSpace ws1 = true → allBytes asciiSpace ws2 = true →
  solid c → solid d → rev (String c r) = String d r' →
  TrimSpace (ws1 +:+ String c r +:+ ws2) = String c r.
Proof.
  intros H1 H2 Hc Hd Hrev. unfold TrimSpace, TrimRight.
  rewrite TrimLeft_spaces by done.
  rewrite (app_cons c r ws2), TrimLeft_solid, <- app_cons by done.
  rewrite rev_app, trimLeftRev_spaces by (by rewrite allBytes_rev).
  rewrite Hrev, trimLeftRev_solid by done.
  by rewrite <- Hrev, rev_rev.
Qed.

Lemma digit_solid c : isDigitByte c = true → solid c.
Proof. intros H%isDigitByte_code. unfold solid. lia. Qed.

Lemma isSign_inv sign : isSign sign = true → sign = "" ∨ sign = "+" ∨ sign = "-".
Proof.
  unfold isSign. rewrite !orb_true_iff, !eqs_true. tauto.
Qed.

Lemma TrimSpace_signed ws1 ws2 sign digits :
  allBytes asciiSpace ws1 = true → allBytes asciiSpace ws2 = true →
  isSign sign = true → allDigits digits = true →
  TrimSpace (ws1 +:+ (sign +:+ digits) +:+ ws2) = sign +:+ digits.
Proof.
  intros H1 H2 Hs [Hne Hd]%allDigits_inv.
  assert (∃ d r', rev (sign +:+ digits) = String d r' ∧ solid d)
    as (d & r' & Hrev & Hsd).
  { rewrite rev_app. rewrite <- allBytes_rev in Hd.
    destruct (rev digits) as [|d r0] eqn:Hr.
    - destruct Hne. by rewrite <- (rev_rev digits), Hr.
    - cbn [allBytes] in Hd. apply andb_true_iff in Hd as [Hd _].
      exists d, (r0 +:+ rev sign). split; [done|]. by apply digit_solid. }
  assert (∃ c r, sign +:+ digits = String c r ∧ solid c)
    as (c & r & Hp & Hsc).
  { destruct (isSign_inv sign Hs) as [->|[->| ->]].
    - destruct digits as [|c r]; [done|]. exists c, r. split; [done|].
      cbn [allBytes] in Hd. apply andb_true_iff in Hd as [Hd _].
      by apply digit_solid.
    - exists "+"%char, digits. split; [done|]. by vm_compute.
    - exists "-"%char, digits. split; [done|]. by vm_compute. }
  rewrite Hp in *. by apply (TrimSpace_surround ws1 ws2 c r d r').
Qed.

End TrimFacts.

(** ** The schema binder *)

Section BinderFacts.

Context {E : Engine}.
Implicit Types (s : state E) (lv : locals).

Lemma splitSign_signed sign digits :
  isSign sign = true → allDigits digits = true →
  splitSign (sign +:+ digits) = (sign, digits).
Proof.
  intros Hs [Hne Hd]%allDigits_inv.
  destruct (isSign_inv sign Hs) as [->|[->| ->]]; [|done..].
  rewrite app_nil_l. destruct digits as [|c r]; [done|].
  cbn [allBytes] in Hd. apply andb_true_iff in Hd as [Hc _].
  apply digit_not_sign in Hc as [Hp Hm].
  unfold splitSign, byteIs. by rewrite !bool_decide_false.
Qed.

Lemma ParseInt_signedDecimal64 p v :
  Strconv.ParseInt p = inr v ↔ signedDecimal64 p = Some v.
Proof.
  split.
  - intros (sign & digits & -> & Hs & Hd & -> & Hr)%ParseInt_inv.
    unfold signedDecimal64. by rewrite splitSign_signed, Hd, Hr.
  - unfold signedDecimal64.
    destruct (splitSign p) as [sign digits] eqn:Hsplit.
    destruct (allDigits digits) eqn:Hd; [|done].
    destruct (inInt64 _) eqn:Hr; [|done]. intros [= <-].
    assert (p = sign +:+ digits ∧ isSign sign = true) as [-> Hs].
    { unfold splitSign in Hsplit. destruct p as [|c r]; [by simplify_eq|].
      destruct (byteIs c "+") eqn:Hp; [|destruct (byteIs c "-") eqn:Hm];
        cbn [orb] in Hsplit; simplify_eq; [| |done].
      - by apply byteIs_true in Hp as ->.
      - by apply byteIs_true in Hm as ->. }
    by apply ParseInt_ok.
Qed.

Lemma ParseInt_None p :
  signedDecimal64 p = None → ∃ err, Strconv.ParseInt p = inl err.
Proof.
  intros Hnone. destruct (Strconv.ParseInt p) as [err|v] eqn:Hp; [eauto|].
  apply ParseInt_signedDecimal64 in Hp. congruence.
Qed.

Lemma setVal_eq el name text s :
  setVal el name text s
  = match fieldOf s name with
    | Some (i, f) =>
        if negb (IsExported f)
        then fail ("struct field " +:+ quote (Name f) +:+ " must be exported")
        else
          match FieldKind f with
          | KString => store el i (VString text)
          | KInt =>
              match Strconv.ParseInt (Strings.TrimSpace text) with
              | inl err => fail (invalidValue f text err)
              | inr i' => store el i (VInt i')
              end
          | KBool => store el i (VBool true)
          | KOther k =>
              fail ("unexpected type " +:+ quote k +:+ " of struct field "
                    +:+ quote (Name f))
          end
    | None => fail ("unexpected =" +:+ name +:+ "=")
    end s.
Proof. done. Qed.

(** A marker that is not the title, in a record that has its title. *)
Lemma bindMarker_field title file lv name text s :
  name ≠ title → first lv = false → name ∉ seen lv →
  bindMarker title file lv name text s
  = match setVal (el lv) name text s with
    | (Ok _, s') =>
        (Ok (Some {| el := el lv; seen := {[name]} ∪ seen lv;
                     tVal := tVal lv; first := false |}), s')
    | (Err e, s') => (Err (withContext title (tVal lv) file e), s')
    | (Stuck, s') => (Stuck, s')
    end.
Proof.
  intros Hne%eqs_false Hfirst Hseen. unfold bindMarker.
  rewrite Hne, Hfirst. unfold bind at 1. unfold ret at 1.
  rewrite bool_decide_false by done.
  unfold bind, onError. rewrite Hfirst.
  by destruct (setVal (el lv) name text s) as [[[]|e|] s'].
Qed.

Lemma parse_body_marker title lv s name s1 text s2 :
  readDef s = (Ok name, s1) →
  name ≠ "" → name ≠ "TEMPL" → name ≠ "SUBST" →
  readExpandedText s1 = (Ok text, s2) →
  parse_body title lv s = bindMarker title (filename s) lv name text s2.
Proof.
  intros Hdef H1%eqs_false H2%eqs_false H3%eqs_false Htext.
  unfold parse_body. unfold bind at 1. unfold gets at 1.
  rewrite (bind_Ok _ _ _ _ _ Hdef), H1, H2, H3.
  apply bind_Ok. unfold onError. by rewrite Htext.
Qed.

Lemma parse_loop_Err fuel title lv s e s' :
  parse_body title lv s = (Err e, s') →
  parse_loop (S fuel) title lv s = (Err e, s').
Proof. intros H. cbn [parse_loop]. by apply bind_Err. Qed.

(** C7, with the bound that the code has: the text of an integer field is
    accepted when it writes, between white space, an optional sign [+] or
    [-] and digits, and the value fits a signed integer of 64 bits; the
    field then holds the value.  Every other text, one that writes a value out
    of this range included, fails [setVal] with the error [invalid value for
    struct field], which names the field, and with it the parse. *)
Theorem integer_field_coercion s ix name text i f :
  fieldOf s name = Some (i, f) →
  IsExported f = true →
  FieldKind f = KInt →
  (∀ ws1 ws2 sign digits,
     text = ws1 +:+ (sign +:+ digits) +:+ ws2 →
     allBytes Strings.asciiSpace ws1 = true →
     allBytes Strings.asciiSpace ws2 = true →
     isSign sign = true → allDigits digits = true →
     inInt64 (signedValue sign digits) = true →
     setVal ix name text s
     = (Ok (), withField ix i (VInt (signedValue sign digits)) s))
  ∧ (signedDecimal64 (Strings.TrimSpace text) = None →
     ∃ err,
       setVal ix name text s = (Err (invalidValue f text err), s)
       ∧ ∀ fuel title lv s0 s1,
           readDef s0 = (Ok name, s1) →
           name ≠ "" → name ≠ "TEMPL" → name ≠ "SUBST" →
           readExpandedText s1 = (Ok text, s) →
           name ≠ title → first lv = false → name ∉ seen lv → el lv = ix →
           parse_loop (S fuel) title lv s0
           = (Err (withContext title (tVal lv) (filename s0)
                     (invalidValue f text err)), s)).
Proof.
  intros Hfield Hexp Hkind. split.
  - intros ws1 ws2 sign digits -> Hw1 Hw2 Hsign Hdigits Hrange.
    rewrite setVal_eq, Hfield, Hexp, Hkind. cbn [negb].
    rewrite TrimSpace_signed by done.
    by rewrite ParseInt_ok.
  - intros [err Herr]%ParseInt_None. exists err.
    assert (setVal ix name text s = (Err (invalidValue f text err), s)) as Hset.
    { rewrite setVal_eq, Hfield, Hexp, Hkind. cbn [negb]. by rewrite Herr. }
    split; [done|].
    intros fuel title lv s0 s1 Hdef H1 H2 H3 Htext Hne Hfirst Hseen <-.
    apply parse_loop_Err.
    rewrite (parse_body_marker title lv s0 name s1 text s) by done.
    rewrite bindMarker_field by done. by rewrite Hset.
Qed.

End BinderFacts.

Lemma integer_field_coercion_witness :
  setVal 0 "COUNT" "  -654321" recordState
  = (Ok (), withField 0 2 (VInt (-654321)) recordState).
Proof.
  apply (proj1 (integer_field_coercion recordState 0 "COUNT" "  -654321" 2
                  (exported "Count" KInt) eq_refl eq_refl eq_refl)
           "  " "" "-" "654321");
    reflexivity.
Defined.

(** C7, against the claim: a signed decimal integer that does not fit 64
    bits is refused. *)
Lemma integer_out_of_range_refused :
  allDigits "9223372036854775808" = true
  ∧ (setVal 0 "COUNT" "9223372036854775808" recordState).1
    = Err (invalidValue (E:=plainEngine) (exported "Count" KInt)
             "9223372036854775808" Strconv.ErrRange).
Proof. split; reflexivity. Qed.

(** ** What the parser keeps *)

Section ExtendsFacts.

Context {E : Engine}.
Implicit Types (s : state E) (lv : locals).

Lemma keeps_advances_extends {A} (m : M E A) s :
  keeps advances s m → keeps extends s m.
Proof. apply advances_extends. Qed.

Lemma extends_set_templates tm s : extends s (set_templates tm s).
Proof. repeat split; try done. exists 0%nat. by rewrite drop_0. Qed.

Lemma extends_addElement s : extends s (set_slice (addElement (slice s)).1 s).
Proof.
  repeat split; try done.
  - cbn. rewrite length_app. lia.
  - exists 0%nat. by rewrite drop_0.
Qed.

Lemma store_extends ix i v s : keeps extends s (store ix i v).
Proof.
  repeat split; try done.
  - cbn. by rewrite length_alter.
  - exists 0%nat. by rewrite drop_0.
Qed.

Ltac ext_go :=
  repeat
    lazymatch goal with
    | |- keeps _ _ (ret _) => apply (keeps_ret extends extends_refl)
    | |- keeps _ _ (fail _) => apply (keeps_fail extends extends_refl)
    | |- keeps _ _ stuck => apply (keeps_stuck extends extends_refl)
    | |- keeps _ _ (gets _) => apply (keeps_gets extends extends_refl)
    | |- keeps _ _ (lift _) => apply (keeps_lift extends extends_refl)
    | |- keeps _ _ (onError _ _) => apply (keeps_onError extends)
    | |- keeps _ _ (store _ _ _) => apply store_extends
    | |- keeps _ _ readDef =>
        apply keeps_advances_extends, readDef_advances
    | |- keeps _ _ readExpandedText =>
        apply keeps_advances_extends, readExpandedText_advances
    | |- keeps _ _ readTemplName =>
        apply keeps_advances_extends, readTemplName_advances
    | |- keeps _ _ (modify (set_templates _)) =>
        apply keeps_modify, extends_set_templates
    | |- keeps _ _ (modify (set_slice (addElement (slice _)).1)) =>
        apply keeps_modify, extends_addElement
    | |- keeps _ _ (bind _ _) =>
        apply (keeps_bind extends extends_trans);
        [|let H := fresh "Hrun" in
          intros ?a ?s H;
          lazymatch type of H with
          | gets _ _ = _ => unfold gets in H; simplify_eq
          | modify _ _ = _ => unfold modify in H; simplify_eq
          | _ => idtac
          end]
    | |- keeps _ _ (match ?x with _ => _ end) => destruct x
    end.

Lemma setVal_extends ix name text s : keeps extends s (setVal ix name text).
Proof. unfold setVal. ext_go. Qed.

Lemma templDef_extends s : keeps extends s templDef.
Proof. unfold templDef. ext_go. Qed.

Lemma bindMarker_extends title file lv name text s :
  keeps extends s (bindMarker title file lv name text).
Proof. unfold bindMarker. ext_go; apply setVal_extends. Qed.

Lemma parse_body_extends title lv s : keeps extends s (parse_body title lv).
Proof.
  unfold parse_body. ext_go;
    [apply templDef_extends|apply bindMarker_extends].
Qed.

Lemma parse_loop_extends fuel title : ∀ lv s,
  keeps extends s (parse_loop fuel title lv).
Proof.
  induction fuel as [|fuel IH]; intros lv s; cbn [parse_loop]; ext_go.
  - apply parse_body_extends.
  - apply IH.
Qed.

Lemma parse_extends s : keeps extends s parse.
Proof. unfold parse. ext_go. apply parse_loop_extends. Qed.

End ExtendsFacts.

(** ** Errors and the caller's slice *)

Section ShapeFacts.

Context {E : Engine}.
Implicit Types (s : state E) (lv : locals).

Lemma parse_adds_element s :
  extends (set_slice (addElement (slice s)).1 s) (parse s).2.
Proof.
  unfold parse, bind at 1, gets at 1, bind at 1, modify at 1.
  set (s1 := set_slice (addElement (slice s)).1 s).
  change (keeps extends s1
            (match elemType (slice s) with
             | Struct [] => fail "expecting struct with at least one field"
             | Struct (f0 :: _) =>
                 bind (gets rest) (λ r,
                   parse_loop (S (len r)) (toSnakeCase (Name f0))
                     {| el := (addElement (slice s)).2; seen := ∅;
                        tVal := ""; first := true |})
             | NotStruct _ => fail "expecting slice of struct"
             end)).
  destruct (elemType (slice s)) as [[|f0 fields]|k];
    try apply (keeps_fail extends extends_refl).
  apply (keeps_bind extends extends_trans);
    [apply (keeps_gets extends extends_refl)|].
  intros r s' _. apply parse_loop_extends.
Qed.



End ShapeFacts.




(** ** Records and their markers *)

Section RecordFacts.

Context {E : Engine}.
Implicit Types (s : state E) (lv : locals).

#[local] Arguments setVal : simpl never.

Lemma bindMarker_inv_Some title file lv name text s lv' s' :
  bindMarker title file lv name text s = (Ok (Some lv'), s') →
  (name = title ∧ first lv' = false ∧ seen lv' = {[name]} ∪ ∅
   ∧ tVal lv' = text)
  ∨ (name ≠ title ∧ first lv = false
     ∧ lv' = {| el := el lv; seen := {[name]} ∪ seen lv;
                tVal := tVal lv; first := first lv |}).
Proof.
  unfold bindMarker. intros (lvm & s1 & Hm & Hrun)%bind_inv_Ok.
  destruct (eqs name title) eqn:Ht.
  - apply eqs_true in Ht. left.
    apply bind_inv_Ok in Hm as (ix & s0 & _ & [= <- <-]).
    cbn [seen el tVal first] in Hrun.
    rewrite bool_decide_false in Hrun by apply not_elem_of_empty.
    by apply bind_inv_Ok in Hrun as (? & ? & _ & [= <- <-]).
  - apply eqs_false in Ht. right.
    destruct (first lv) eqn:Hf; [done|]. injection Hm as <- <-.
    destruct (bool_decide (name ∈ seen lv)); [done|].
    apply bind_inv_Ok in Hrun as (? & ? & _ & [= <- <-]).
    by rewrite Hf.
Qed.

Lemma parse_body_inv_Some title lv s lv' s' :
  parse_body title lv s = (Ok (Some lv'), s') →
  lv' = lv
  ∨ ∃ name text s2,
      name ≠ "" ∧ name ≠ "TEMPL" ∧ name ≠ "SUBST"
      ∧ bindMarker title (filename s) lv name text s2 = (Ok (Some lv'), s').
Proof.
  unfold parse_body. unfold bind at 1. unfold gets at 1.
  intros (name & s1 & Hdef & Hrest)%bind_inv_Ok.
  destruct (eqs name "") eqn:H1.
  { by destruct (first lv). }
  destruct (eqs name "TEMPL") eqn:H2.
  { apply bind_inv_Ok in Hrest as (? & ? & _ & [= <- <-]). by left. }
  destruct (eqs name "SUBST") eqn:H3; [done|].
  apply bind_inv_Ok in Hrest as (text & s2 & _ & Hbind).
  right. exists name, text, s2. by rewrite <- !eqs_false.
Qed.

Lemma wellFormed_next title lv s lv' s' :
  wellFormed title lv →
  parse_body title lv s = (Ok (Some lv'), s') →
  wellFormed title lv'.
Proof.
  intros [Htitle Hseen] [->|(name & text & s2 & H1 & H2 & H3 & Hbind)]
    %parse_body_inv_Some; [done|].
  apply bindMarker_inv_Some in Hbind
    as [(Heq & Hf & Hs & _)|(Hne & Hf & ->)].
  - subst name. split.
    + intros _. rewrite Hs. by apply elem_of_union_l, elem_of_singleton.
    + intros n Hn. rewrite Hs in Hn.
      apply elem_of_union in Hn as [Hn%elem_of_singleton|Hn%not_elem_of_empty];
        by subst.
  - cbn [seen first]. split.
    + intros _. by apply elem_of_union_r, Htitle.
    + intros n [Hn|Hn]%elem_of_union; [|by apply Hseen].
      by apply elem_of_singleton in Hn as ->.
Qed.

Lemma reachable_wellFormed title lv s :
  reachable title lv s → wellFormed title lv.
Proof.
  induction 1 as [s ix _|lv s lv' s' _ IH Hstep].
  - split; [done|]. by intros n Hn%not_elem_of_empty.
  - by eapply wellFormed_next.
Qed.

(** The title marker in a record that has its title. *)
Lemma bindMarker_title title file lv text s :
  title ∈ seen lv →
  bindMarker title file lv title text s
  = match setVal (length (elems (slice s))) title text
            (set_slice (addElement (slice s)).1 s) with
    | (Ok _, s') =>
        (Ok (Some {| el := length (elems (slice s)); seen := {[title]};
                     tVal := text; first := false |}), s')
    | (Err e, s') => (Err (withContext title text file e), s')
    | (Stuck, s') => (Stuck, s')
    end.
Proof.
  intros Hseen. unfold bindMarker. rewrite eqs_refl.
  rewrite bool_decide_true by done.
  unfold bind, ret, gets, modify, onError. cbn [seen el tVal first].
  rewrite bool_decide_false by apply not_elem_of_empty.
  replace (addElement (slice s)).2 with (length (elems (slice s)))
    by (unfold addElement; cbn; lia).
  rewrite (right_id_L ∅ (∪)).
  by destruct (setVal _ title text _) as [[[]|e|] s'].
Qed.

End RecordFacts.

(** ** Errors and their context *)

Section ContextFacts.

Context {E : Engine}.
Implicit Types (s : state E) (lv : locals).

#[local] Arguments setVal : simpl never.
#[local] Arguments take : simpl nomatch.
#[local] Arguments drop : simpl nomatch.

Lemma firstLine_split r :
  ∃ after, r = firstLine r +:+ after
           ∧ Strings.IndexByte (firstLine r) newline = None
           ∧ (after = "" ∨ ∃ t, after = nl +:+ t).
Proof.
  unfold firstLine. destruct (Strings.IndexByte r newline) as [i|] eqn:Hi.
  - apply IndexByte_split in Hi as [Hr Hnone].
    exists (String newline (drop (S i) r)). repeat split; try done.
    right. by exists (drop (S i) r).
  - exists "". by rewrite app_nil_r; auto.
Qed.

(** The loop of [readDef] stops in front of a line that is neither blank
    nor a comment. *)
Lemma readDef_skip_line fuel : ∀ s line s1,
  readDef_skip fuel s = (Ok (Some line), s1) →
  advances s s1 ∧ line = firstLine (rest s1).
Proof.
  induction fuel as [|fuel IH]; intros s line s1; [done|].
  cbn [readDef_skip]. unfold bind at 1. unfold gets at 1.
  fold (firstLine (rest s)).
  destruct (_ || _).
  - destruct (Strings.IndexByte (rest s) newline) as [i|]; [|done].
    unfold bind at 1. unfold modify at 1. intros Hrec.
    apply IH in Hrec as [Hadv ->]. split; [|done].
    eapply advances_trans; [apply advances_drop|exact Hadv].
  - intros [= <- <-]. split; [apply advances_refl|done].
Qed.






Lemma bindMarker_inv_Err title file lv name text s e s' :
  bindMarker title file lv name text s = (Err e, s') →
  (name ≠ title
   ∧ (e = "found multiple =" +:+ name +:+ "= in test with =" +:+ title
          +:+ "=" +:+ tVal lv
      ∨ ∃ e0, e = withContext title (tVal lv) file e0))
  ∨ (name = title ∧ ∃ e0, e = withContext title text file e0).
Proof.
  unfold bindMarker.
  intros [Hm|(lvm & s1 & Hm & Hrun)]%bind_inv_Err.
  - left. destruct (eqs name title) eqn:Ht.
    + apply bind_inv_Err in Hm as [Hm|(? & ? & _ & Hm)]; [|done].
      destruct (bool_decide _); [|done].
      by apply bind_inv_Err in Hm as [Hm|(? & ? & _ & [Hm|(? & ? & _ & Hm)]
                                          %bind_inv_Err)].
    + apply eqs_false in Ht. split; [done|]. right.
      destruct (first lv); [|done]. injection Hm as <- <-. eauto.
  - destruct (eqs name title) eqn:Ht.
    + right. apply eqs_true in Ht. split; [done|].
      apply bind_inv_Ok in Hm as (ix & s0 & _ & [= <- <-]).
      cbn [seen el tVal first] in Hrun.
      rewrite bool_decide_false in Hrun by apply not_elem_of_empty.
      apply bind_inv_Err in Hrun as [Hrun|(? & ? & _ & Hrun)]; [|done].
      apply onError_inv_Err in Hrun as (e0 & _ & ->). eauto.
    + left. apply eqs_false in Ht. split; [done|].
      destruct (first lv); [done|]. injection Hm as <- <-.
      destruct (bool_decide _).
      * left. by injection Hrun as <- <-.
      * right. apply bind_inv_Err in Hrun as [Hrun|(? & ? & _ & Hrun)]; [|done].
        apply onError_inv_Err in Hrun as (e0 & _ & ->). eauto.
Qed.

End ContextFacts.

(** ** Scenarios with templates *)

Section Scenarios.

Context {E : Engine}.
Implicit Types (s : state E) (lv : locals).

Lemma parse_loop_S fuel title lv s :
  parse_loop (S fuel) title lv s
  = match parse_body title lv s with
    | (Ok (Some lv'), s') => parse_loop fuel title lv' s'
    | (Ok None, s') => (Ok (), s')
    | (Err e, s') => (Err e, s')
    | (Stuck, s') => (Stuck, s')
    end.
Proof.
  cbn [parse_loop]. unfold bind.
  by destruct (parse_body title lv s) as [[[lv'|]|e|] s'].
Qed.

Lemma parse_struct s f0 fields :
  elemType (slice s) = Struct (f0 :: fields) →
  parse s
  = parse_loop (S (len (rest s))) (toSnakeCase (Name f0))
      (firstRound (length (elems (slice s))))
      (set_slice (addElement (slice s)).1 s).
Proof.
  intros Ht. unfold parse, bind at 1, gets at 1, bind at 1, modify at 1.
  rewrite Ht. unfold bind, gets, firstRound.
  replace (addElement (slice s)).2 with (length (elems (slice s)))
    by (unfold addElement; cbn; lia).
  done.
Qed.

Lemma readExpandedText_steps s raw s1 line text s2 :
  readText s = (Ok raw, s1) →
  doTemplSubst_loop (templates s1) raw (Regexp.FindAllStringIndex raw) 0
  = Val line →
  applySubst line s1 = (Ok text, s2) →
  readExpandedText s = (Ok text, s2).
Proof.
  intros Hraw Hline Htext. unfold readExpandedText.
  rewrite (bind_Ok _ _ _ _ _ Hraw).
  assert (doTemplSubst raw s1 = (Ok line, s1)) as Hd.
  { unfold doTemplSubst, bind, gets. by rewrite Hline. }
  by rewrite (bind_Ok _ _ _ _ _ Hd).
Qed.

Lemma templDef_steps s name s1 text s2 t :
  readTemplName s = (Ok name, s1) →
  readExpandedText s1 = (Ok text, s2) →
  Strings.TrimSuffix text nl ≠ "" →
  template_Parse name (Strings.TrimSuffix text nl) = Val t →
  templDef s = (Ok (), set_templates (<[name := t]> (templates s2)) s2).
Proof.
  intros Hname Htext Hbody Hparse. unfold templDef.
  rewrite (bind_Ok _ _ _ _ _ Hname), (bind_Ok _ _ _ _ _ Htext).
  destruct (len _ =? 0)%nat eqn:Hlen.
  { apply Nat.eqb_eq, len_zero in Hlen. done. }
  by rewrite Hparse.
Qed.

Lemma parse_body_templ title lv s s1 s2 :
  readDef s = (Ok "TEMPL", s1) →
  templDef s1 = (Ok (), s2) →
  parse_body title lv s = (Ok (Some lv), s2).
Proof.
  intros Hdef Htempl. unfold parse_body. unfold bind at 1. unfold gets at 1.
  rewrite (bind_Ok _ _ _ _ _ Hdef).
  change (eqs "TEMPL" "") with false. change (eqs "TEMPL" "TEMPL") with true.
  cbn beta iota. unfold bind, onError. by rewrite Htempl.
Qed.

(** A round of the loop of [parse] on a state that is given in full and
    for which no template is called. *)
Ltac round :=
  lazymatch goal with
  | |- parse_loop ?fuel _ _ _ = _ =>
      let f := eval vm_compute in fuel in
      change fuel with f
  end;
  rewrite parse_loop_S;
  let Hr := fresh "Hround" in
  let o := fresh "o" in
  let s' := fresh "s'" in
  destruct (parse_body _ _ _) as [o s'] eqn:Hr;
  vm_compute in Hr;
  injection Hr as <- <-.

(** The text calls templates; the answers of the engine are among the
    hypotheses. *)
Ltac expand :=
  eapply readExpandedText_steps;
  [vm_compute; reflexivity
  |vm_compute;
   repeat (match goal with
           | H : _ = Val _ |- _ => rewrite H
           end; vm_compute);
   reflexivity
  |vm_compute; reflexivity].

(** A round that registers a template; the answer of the engine for its
    text is a hypothesis. *)
Ltac templ_round :=
  lazymatch goal with
  | |- parse_loop ?fuel _ _ _ = _ =>
      let f := eval vm_compute in fuel in
      change fuel with f
  end;
  rewrite parse_loop_S;
  erewrite parse_body_templ;
  [|vm_compute; reflexivity
   |eapply templDef_steps;
    [vm_compute; reflexivity
    |expand
    |vm_compute; discriminate
    |vm_compute; eassumption]].

(** A round for a marker whose text calls templates. *)
Ltac call_round :=
  lazymatch goal with
  | |- parse_loop ?fuel _ _ _ = _ =>
      let f := eval vm_compute in fuel in
      change fuel with f
  end;
  rewrite parse_loop_S;
  erewrite parse_body_marker;
  [|vm_compute; reflexivity
   |discriminate|discriminate|discriminate
   |expand];
  let Hr := fresh "Hround" in
  let o := fresh "o" in
  let s' := fresh "s'" in
  destruct (bindMarker _ _ _ _ _ _) as [o s'] eqn:Hr;
  vm_compute in Hr;
  injection Hr as <- <-.

(** C2: scenario B of the specification, for every engine that renders a
    template text without action as it stands.  The template [input] is
    registered with the body [number 42 wins]; the call [[[input]]] is
    replaced by the body, in which the rule [/wins/WINS/] then rewrites
    [wins]. *)
Theorem scenarioB_yields_one_record disk file :
  PlainText E →
  disk file = Val scenarioB →
  ParseFile disk file (PointerToSlice (emptySlice titleInput))
  = (Ok (),
     PointerToSlice
       {| elemType := titleInput;
          elems := [Rec [VString "t1"; VString "number 42 WINS"]];
          spare := [] |}).
Proof.
  intros Hplain Hdisk.
  destruct (Hplain "input" "number 42 wins" eq_refl) as (t & Hparse & Hexec).
  specialize (Hexec nilData).
  vm_compute in Hparse. vm_compute in Hexec.
  unfold ParseFile. rewrite Hdisk. cbn [negb length elems emptySlice Nat.eqb].
  match goal with
  | |- ((parse ?s).1, _) = _ =>
      assert (∃ sf, parse s = (Ok (), sf)
                    ∧ slice sf
                      = {| elemType := titleInput;
                           elems :=
                             [Rec [VString "t1"; VString "number 42 WINS"]];
                           spare := [] |}) as (sf & -> & Hsf)
  end.
  { eexists. split.
    - rewrite (parse_struct _ (exported "Title" KString)
                 [exported "Input" KString]) by reflexivity.
      templ_round. round. call_round. round.
      reflexivity.
    - reflexivity. }
  cbn [fst snd]. by rewrite Hsf.
Qed.

Lemma advances_templates s s' : advances s s' → templates s' = templates s.
Proof. by intros [k ->]. Qed.

Lemma callTemplate_called tm tm' text p :
  tm !! calledName text p = tm' !! calledName text p →
  callTemplate tm text p = callTemplate tm' text p.
Proof.
  unfold callTemplate, calledName. intros Hsame.
  destruct (Strings.IndexAny _ _) as [i|].
  - destruct (yaml_Unmarshal _); [|done]. by rewrite Hsame.
  - by rewrite Hsame.
Qed.

(** C10: the body of a template is expanded when the template is
    registered.  [templDef] reads the name, expands the block behind it with
    the templates registered at that moment, and stores under the name what
    the engine makes of the expanded text; the other entries of the registry
    stay, and so does what a call of another template yields.  In the
    document [redefinition] the template [b], whose body calls [a], keeps
    the text of the first [a] when [a] is defined anew. *)
Theorem template_body_expanded_at_registration :
  (∀ s s',
     templDef s = (Ok (), s') →
     ∃ name s1 text s2 t,
       readTemplName s = (Ok name, s1)
       ∧ templates s1 = templates s
       ∧ readExpandedText s1 = (Ok text, s2)
       ∧ template_Parse name (Strings.TrimSuffix text nl) = Val t
       ∧ templates s' = <[name := t]> (templates s)
       ∧ ∀ text' p, calledName text' p ≠ name →
           callTemplate (templates s') text' p
           = callTemplate (templates s) text' p)
  ∧ (PlainText E →
     ∀ disk file,
       disk file = Val redefinition →
       ParseFile disk file (PointerToSlice (emptySlice titleInput))
       = (Ok (),
          PointerToSlice
            {| elemType := titleInput;
               elems := [Rec [VString "t1"; VString "<one> two"]];
               spare := [] |})).
Proof.
  split.
  - intros s s' Hdef. unfold templDef in Hdef.
    apply bind_inv_Ok in Hdef as (name & s1 & Hname & Hdef).
    apply bind_inv_Ok in Hdef as (text & s2 & Htext & Hdef).
    destruct (len _ =? 0)%nat; [done|].
    destruct (template_Parse name _) as [t|err] eqn:Hparse.
    2: { by apply bind_inv_Ok in Hdef as (? & ? & _ & (? & ? & _ & ?)
                                          %bind_inv_Ok). }
    unfold bind, gets, modify in Hdef. injection Hdef as <-.
    pose proof (readTemplName_advances s) as H1.
    pose proof (readExpandedText_advances s1) as H2.
    unfold keeps in H1, H2. rewrite Hname in H1. rewrite Htext in H2.
    apply advances_templates in H1, H2. cbn [snd] in H1, H2.
    exists name, s1, text, s2, t. repeat split; try done.
    + cbn [templates set_templates]. congruence.
    + intros text' p Hne. apply callTemplate_called.
      cbn [templates set_templates]. rewrite lookup_insert_ne by done.
      congruence.
  - intros Hplain disk file Hdisk.
    destruct (Hplain "a" "one" eq_refl) as (a1 & Hparse1 & Hexec1).
    destruct (Hplain "b" "<one>" eq_refl) as (b & Hparse2 & Hexec2).
    destruct (Hplain "a" "two" eq_refl) as (a2 & Hparse3 & Hexec3).
    specialize (Hexec1 nilData). specialize (Hexec2 nilData).
    specialize (Hexec3 nilData).
    vm_compute in Hparse1, Hparse2, Hparse3, Hexec1, Hexec2, Hexec3.
    unfold ParseFile. rewrite Hdisk.
    cbn [negb length elems emptySlice Nat.eqb].
    match goal with
    | |- ((parse ?s).1, _) = _ =>
        assert (∃ sf, parse s = (Ok (), sf)
                      ∧ slice sf
                        = {| elemType := titleInput;
                             elems := [Rec [VString "t1"; VString "<one> two"]];
                             spare := [] |}) as (sf & -> & Hsf)
    end.
    { eexists. split.
      - rewrite (parse_struct _ (exported "Title" KString)
                   [exported "Input" KString]) by reflexivity.
        templ_round. templ_round. templ_round. round. call_round. round.
        reflexivity.
      - reflexivity. }
    cbn [fst snd]. by rewrite Hsf.
Qed.

End Scenarios.

Lemma plainEngine_PlainText : PlainText plainEngine.
Proof.
  intros name text Hplain. exists text. cbn. by rewrite Hplain.
Qed.

Lemma scenarioB_witness :
  ParseFile (E:=plainEngine) (oneFile scenarioB) "file"
    (PointerToSlice (emptySlice titleInput))
  = (Ok (),
     PointerToSlice
       {| elemType := titleInput;
          elems := [Rec [VString "t1"; VString "number 42 WINS"]];
          spare := [] |}).
Proof.
  apply (scenarioB_yields_one_record (E:=plainEngine) (oneFile scenarioB)
           "file" plainEngine_PlainText).
  reflexivity.
Defined.

Lemma template_body_expanded_witness :
  ParseFile (E:=plainEngine) (oneFile redefinition) "file"
    (PointerToSlice (emptySlice titleInput))
  = (Ok (),
     PointerToSlice
       {| elemType := titleInput;
          elems := [Rec [VString "t1"; VString "<one> two"]];
          spare := [] |}).
Proof.
  apply (proj2 (template_body_expanded_at_registration (E:=plainEngine))
           plainEngine_PlainText (oneFile redefinition) "file").
  reflexivity.
Defined.


(** ** Names and marker lines *)

Section MarkerFacts.

#[local] Arguments take : simpl nomatch.
#[local] Arguments drop : simpl nomatch.

Lemma nameByte_ascii c :
  isLetter (code c) || isDecimal (code c)
  = isLowerByte c || isUpperByte c || isDigitByte c || byteIs c "_".
Proof. by destruct c as [[] [] [] [] [] [] [] []]. Qed.

(** X1: [isName] holds of the texts made of ASCII letters, digits and
    underscores, and of no other: the test [lower], which sets one bit of the
    character, lets no other character pass for a letter. *)
Theorem isName_ascii n :
  isName n
  = allBytes (λ c, isLowerByte c || isUpperByte c || isDigitByte c
                   || byteIs c "_") n.
Proof.
  unfold isName. induction n as [|c n IH]; [done|].
  cbn [allBytes]. by rewrite IH, nameByte_ascii.
Qed.

Lemma isName_IndexByte n c :
  isName n = true → isLetter (code c) || isDecimal (code c) = false →
  Strings.IndexByte n c = None.
Proof.
  unfold isName. intros Hn Hc. induction n as [|d n IH]; [done|].
  cbn [allBytes Strings.IndexByte] in *. apply andb_true_iff in Hn as [Hd Hn].
  rewrite bool_decide_false, IH; [done..|].
  intros ->. by rewrite Hc in Hd.
Qed.

Lemma checkDef_inv line name :
  checkDef line = name → name ≠ "" →
  ∃ tail, line = "=" +:+ name +:+ "=" +:+ tail ∧ isName name = true.
Proof.
  unfold checkDef. destruct line as [|c r]; [by intros <-|].
  change (eqs (String c r) "") with false. cbn [orb headIs negb drop].
  case_bool_decide as Hc; [subst c|by intros <-]. cbn [negb].
  destruct (Strings.IndexByte r "=") as [idx|] eqn:Hidx; [|by intros <-].
  destruct (_ && _) eqn:Hname; [|by intros <-].
  apply andb_true_iff in Hname as [_ Hname]. intros <- _.
  apply IndexByte_split in Hidx as [Hr _].
  exists (drop (S idx) r). split; [|done].
  change ("=" +:+ take idx r +:+ "=" +:+ drop (S idx) r)
    with (String "=" (take idx r +:+ String "=" (drop (S idx) r))).
  by rewrite <- Hr.
Qed.

Lemma checkDef_marker name tail :
  isName name = true → name ≠ "" →
  checkDef ("=" +:+ name +:+ "=" +:+ tail) = name.
Proof.
  intros Hname Hne.
  change ("=" +:+ name +:+ "=" +:+ tail)
    with (String "=" (name +:+ String "=" tail)).
  unfold checkDef.
  change (eqs (String "=" (name +:+ String "=" tail)) "") with false.
  cbn [orb headIs negb drop]. rewrite bool_decide_true by done. cbn [negb].
  rewrite (IndexByte_app_None name) by (by apply isName_IndexByte).
  cbn [Strings.IndexByte]. rewrite bool_decide_true by done.
  cbn [fmap option_fmap option_map]. rewrite Nat.add_0_r, take_app_len, Hname.
  by destruct name.
Qed.

(** X2: [checkDef] finds the marker lines.  It returns the name [name],
    not empty, for the lines that begin with [=name=], [name] made of
    letters, digits and underscores, and for no other line. *)
Theorem checkDef_marker_line line name :
  name ≠ "" →
  checkDef line = name
  ↔ ∃ tail, line = "=" +:+ name +:+ "=" +:+ tail ∧ isName name = true.
Proof.
  intros Hne. split; [by intros; apply checkDef_inv|].
  intros (tail & -> & Hname). by apply checkDef_marker.
Qed.

End MarkerFacts.

(** ** The loops end *)

Section TerminationFacts.

Context {E : Engine}.
Implicit Types (s : state E) (lv : locals).

#[local] Arguments take : simpl nomatch.
#[local] Arguments drop : simpl nomatch.
#[local] Arguments setVal : simpl never.






Lemma checkDef_nonempty line : checkDef line ≠ "" → line ≠ "".
Proof. by intros H ->. Qed.








(** A marker that [readDef] returns has been read: the scanner is behind
    its second [=]. *)
Lemma readDef_inv_Ok s name s' :
  readDef s = (Ok name, s') → name ≠ "" →
  isName name = true
  ∧ ∃ before, rest s = before +:+ "=" +:+ name +:+ "=" +:+ rest s'
              ∧ s' = set_rest (rest s') s.
Proof.
  unfold readDef. unfold bind at 1. unfold gets at 1.
  intros (found & s1 & Hskip & Hrest)%bind_inv_Ok Hne.
  destruct found as [line|]; [|by injection Hrest as <- <-].
  apply readDef_skip_line in Hskip as [[k ->] ->].
  cbn [rest set_rest] in Hrest.
  destruct (eqs (checkDef _) "") eqn:Hname.
  { unfold bind, currentLine, gets, fail in Hrest. by simplify_eq. }
  unfold bind, gets, modify, ret in Hrest. cbn [rest set_rest] in Hrest.
  injection Hrest as <- <-.
  set (r1 := drop k (rest s)) in *.
  destruct (checkDef_inv (firstLine r1) _ eq_refl) as (tail & Hline & Hn).
  { by apply eqs_false. }
  split; [done|].
  destruct (firstLine_split r1) as (after & Hr1 & _).
  exists (take k (rest s)). cbn [rest set_rest]. split; [|done].
  set (name := checkDef (firstLine r1)) in *.
  assert (r1 = ("=" +:+ name +:+ "=") +:+ tail +:+ after) as Hr.
  { rewrite Hr1 at 1. rewrite Hline. by rewrite !app_assoc. }
  transitivity (take k (rest s) +:+ r1); [unfold r1; by rewrite take_drop|].
  f_equal. rewrite Hr.
  replace (len name + 2)%nat with (len ("=" +:+ name +:+ "="))
    by (change ("=" +:+ name +:+ "=") with (String "=" (name +:+ "="));
        cbn [len String.length]; fold (len (name +:+ "="));
        rewrite len_app; cbn; lia).
  by rewrite drop_app_len, !app_assoc.
Qed.

Lemma readDef_progress s name s' :
  readDef s = (Ok name, s') → name ≠ "" →
  (len (rest s') < len (rest s))%nat.
Proof.
  intros Hdef Hne.
  destruct (readDef_inv_Ok _ _ _ Hdef Hne) as (_ & before & -> & _).
  change ("=" +:+ name +:+ "=" +:+ rest s')
    with (String "=" (name +:+ String "=" (rest s'))).
  rewrite !len_app. cbn [len String.length]. fold (len (name +:+ String "=" (rest s'))).
  rewrite (len_app name). cbn [len String.length]. fold (len (rest s')). lia.
Qed.

Lemma parse_body_progress title lv s lv' s' :
  parse_body title lv s = (Ok (Some lv'), s') →
  (len (rest s') < len (rest s))%nat.
Proof.
  unfold parse_body. unfold bind at 1. unfold gets at 1.
  intros (name & s1 & Hdef & Hrest)%bind_inv_Ok.
  destruct (eqs name "") eqn:H1; [by destruct (first lv)|].
  apply eqs_false in H1.
  pose proof (readDef_progress _ _ _ Hdef H1) as Hlt.
  enough (extends s1 s') as Hext%extends_len by lia.
  destruct (eqs name "TEMPL").
  { apply bind_inv_Ok in Hrest as (? & s2 & Hrun%onError_inv_Ok & [= _ <-]).
    pose proof (templDef_extends s1) as H. unfold keeps in H.
    by rewrite Hrun in H. }
  destruct (eqs name "SUBST"); [done|].
  apply bind_inv_Ok in Hrest as (text & s2 & Hrun%onError_inv_Ok & Hbind).
  pose proof (readExpandedText_advances s1) as H2%advances_extends.
  rewrite Hrun in H2.
  pose proof (bindMarker_extends title (filename s) lv name text s2) as H3.
  unfold keeps in H3. rewrite Hbind in H3.
  by eapply extends_trans.
Qed.




End TerminationFacts.

(** ** Blank lines and comments *)

Section SkipFacts.

Context {E : Engine}.
Implicit Types (s : state E) (lv : locals).

Import Strings.

#[local] Arguments take : simpl nomatch.
#[local] Arguments drop : simpl nomatch.

Lemma trimLeftRev_last c : solid c → ∀ n x, (len x ≤ n)%nat →
  ∃ y, trimLeftRev (x +:+ String c "") = y +:+ String c "".
Proof.
  intros Hc. induction n as [|n IH]; intros x Hlen.
  { destruct x; [|cbn in Hlen; lia]. exists "".
    by rewrite app_nil_l, trimLeftRev_solid. }
  destruct x as [|b0 r]; [exists ""; by rewrite app_nil_l, trimLeftRev_solid|].
  cbn [len String.length] in Hlen. fold (len r) in Hlen.
  rewrite app_cons. cbn [trimLeftRev].
  destruct (asciiSpace b0); [apply IH; lia|].
  destruct r as [|b1 r1].
  { rewrite app_nil_l. destruct (space2 c b0) eqn:H2.
    - apply space2_code in H2. destruct Hc. lia.
    - by exists (String b0 ""). }
  cbn [len String.length] in Hlen. fold (len r1) in Hlen.
  rewrite app_cons. destruct (space2 b1 b0); [apply IH; lia|].
  destruct r1 as [|b2 r2].
  { rewrite app_nil_l. destruct (space3 c b1 b0) eqn:H3.
    - apply space3_code in H3. destruct Hc. lia.
    - by exists (String b0 (String b1 "")). }
  cbn [len String.length] in Hlen. fold (len r2) in Hlen.
  rewrite app_cons. destruct (space3 b2 b1 b0); [apply IH; lia|].
  by exists (String b0 (String b1 (String b2 r2))).
Qed.

(** [TrimSpace] keeps the first byte of a text that begins with a solid
    byte. *)
Lemma TrimSpace_head c r : solid c → ∃ r', TrimSpace (String c r) = String c r'.
Proof.
  intros Hc. unfold TrimSpace, TrimRight. rewrite TrimLeft_solid by done.
  cbn [rev].
  destruct (trimLeftRev_last c Hc (len (rev r)) (rev r)) as [y ->]; [done|].
  exists (rev y). by rewrite rev_app.
Qed.

Lemma lines_snoc l ls x : lines ((l :: ls) ++ [x]) = l +:+ nl +:+ lines (ls ++ [x]).
Proof. by destruct ls. Qed.

Lemma lines_len ls x : (length ls ≤ len (lines (ls ++ [x])))%nat.
Proof.
  induction ls as [|l ls IH]; [cbn; lia|].
  rewrite lines_snoc, !len_app. cbn [length]. change (len nl) with 1%nat. lia.
Qed.

Lemma readDef_skip_lines ls : ∀ fuel s x,
  forallb skipped ls = true → rest s = lines (ls ++ [x]) →
  readDef_skip (length ls + fuel) s = readDef_skip fuel (set_rest x s).
Proof.
  induction ls as [|l ls IH]; intros fuel s x Hls Hrest.
  { cbn in Hrest. by rewrite <- Hrest, set_rest_id. }
  cbn [forallb] in Hls. apply andb_true_iff in Hls as [Hl Hls].
  unfold skipped in Hl. apply andb_true_iff in Hl as [Hnone Hl].
  apply bool_decide_eq_true in Hnone.
  cbn [length Nat.add readDef_skip]. unfold bind at 1. unfold gets at 1.
  rewrite Hrest, lines_snoc.
  rewrite (IndexByte_app_None l) by done.
  change (nl +:+ lines (ls ++ [x])) with (String newline (lines (ls ++ [x]))).
  cbn [IndexByte]. rewrite bool_decide_true by done.
  cbn [fmap option_fmap option_map].
  rewrite Nat.add_0_r, take_app_len, Hl.
  unfold bind at 1. unfold modify at 1.
  rewrite drop_app_plus. cbn [drop].
  rewrite (IH fuel _ x) by done. by rewrite set_rest_twice.
Qed.

(** At the end of an input of skipped lines, [readDef] returns the empty
    name, with all the input read. *)
Lemma readDef_at_end ls s :
  forallb skipped ls = true → rest s = lines ls →
  readDef s = (Ok "", set_rest "" s).
Proof.
  intros Hls Hrest.
  assert (∃ init x, lines ls = lines (init ++ [x])
                    ∧ forallb skipped (init ++ [x]) = true)
    as (init & x & Hl & Hall).
  { destruct ls as [|l ls _] using rev_ind; [by exists [], ""|]. eauto. }
  rewrite Hl in Hrest. clear Hl Hls ls.
  rewrite forallb_app in Hall. apply andb_true_iff in Hall as [Hinit Hx].
  cbn [forallb] in Hx. rewrite andb_true_r in Hx.
  unfold skipped in Hx. apply andb_true_iff in Hx as [Hnone Hx].
  apply bool_decide_eq_true in Hnone.
  unfold readDef. unfold bind at 1. unfold gets at 1.
  pose proof (lines_len init x) as Hlen. rewrite <- Hrest in Hlen.
  replace (S (len (rest s)))
    with (length init + S (len (rest s) - length init))%nat by lia.
  unfold bind at 1. rewrite (readDef_skip_lines init _ s x) by done.
  cbn [readDef_skip]. unfold bind, gets, modify, ret. cbn [rest set_rest].
  rewrite Hnone, Hx. by rewrite drop_all.
Qed.

Lemma firstLine_app pre t :
  IndexByte pre newline = None → firstLine (pre +:+ t) = pre +:+ firstLine t.
Proof.
  intros Hpre. unfold firstLine. rewrite IndexByte_app_None by done.
  destruct (IndexByte t newline) as [i|]; [|done].
  cbn [fmap option_fmap option_map]. apply take_app_plus.
Qed.

(** In front of a marker line, behind skipped lines, [readDef] returns the
    name of the marker and stops behind its second [=]. *)
Lemma readDef_at_marker ls name tail s :
  forallb skipped ls = true → isName name = true → name ≠ "" →
  rest s = lines (ls ++ ["=" +:+ name +:+ "=" +:+ tail]) →
  readDef s = (Ok name, set_rest tail s).
Proof.
  intros Hls Hname Hne Hrest.
  set (x := "=" +:+ name +:+ "=" +:+ tail) in *.
  assert (firstLine x = "=" +:+ name +:+ "=" +:+ firstLine tail) as Hline.
  { unfold x. rewrite <- !app_assoc.
    rewrite firstLine_app; [done|].
    change (("=" +:+ name) +:+ "=") with (String "=" (name +:+ "=")).
    cbn [IndexByte]. rewrite bool_decide_false by done.
    rewrite IndexByte_app_None by (by apply isName_IndexByte). done. }
  unfold readDef. unfold bind at 1. unfold gets at 1.
  pose proof (lines_len ls x) as Hlen. rewrite <- Hrest in Hlen.
  replace (S (len (rest s)))
    with (length ls + S (len (rest s) - length ls))%nat by lia.
  unfold bind at 1. rewrite (readDef_skip_lines ls _ s x) by done.
  cbn [readDef_skip]. unfold bind at 1. unfold gets at 1. cbn [rest set_rest].
  fold (firstLine x). rewrite Hline.
  destruct (TrimSpace_head "=" (name +:+ "=" +:+ firstLine tail)) as [r' Hr'];
    [by vm_compute|].
  change (TrimSpace ("=" +:+ name +:+ "=" +:+ firstLine tail))
    with (TrimSpace (String "=" (name +:+ "=" +:+ firstLine tail))).
  rewrite Hr'. change (eqs (String "=" r') "") with false.
  cbn [headIs orb]. rewrite bool_decide_false by done.
  unfold bind at 1. unfold ret at 1.
  rewrite checkDef_marker by done.
  apply eqs_false in Hne. rewrite Hne.
  unfold bind, gets, modify, ret. cbn [rest set_rest].
  rewrite set_rest_twice. replace (drop (len name + 2) x) with tail; [done|].
  unfold x. change ("=" +:+ name +:+ "=" +:+ tail)
    with (String "=" (name +:+ String "=" tail)).
  replace (len name + 2)%nat with (S (len name + 1)) by lia.
  cbn [drop]. by rewrite drop_app_plus.
Qed.

(** X4: [readDef] skips blank lines and comments: in front of a line that
    begins with the marker [=name=], with skipped lines before it, it
    returns [name] and leaves the scanner behind the second [=] of the
    marker. *)
Theorem readDef_finds_marker ls name tail s :
  forallb skipped ls = true → isName name = true → name ≠ "" →
  rest s = lines (ls ++ ["=" +:+ name +:+ "=" +:+ tail]) →
  readDef s = (Ok name, set_rest tail s).
Proof. apply readDef_at_marker. Qed.

Lemma parse_without_marker ls s f0 fields :
  rest s = lines ls → forallb skipped ls = true →
  elemType (slice s) = Struct (f0 :: fields) →
  parse s
  = (Err ("missing =" +:+ toSnakeCase (Name f0)
          +:+ "= in first test of file " +:+ quote (filename s)),
     set_rest "" (set_slice (addElement (slice s)).1 s)).
Proof.
  intros Hrest Hls Htype. rewrite (parse_struct s f0 fields Htype).
  apply parse_loop_Err. unfold parse_body. unfold bind at 1. unfold gets at 1.
  rewrite (bind_Ok readDef _ _ "" (set_rest "" (set_slice (addElement (slice s)).1 s)));
    [|by apply (readDef_at_end ls)].
  by rewrite eqs_refl.
Qed.

(** X5: a file that holds nothing but blank lines and comments (the empty
    file is one) is refused with the error [missing =TITLE= in first test of
    file], [TITLE] being the marker of the first field; the caller's slice
    has got its first element all the same. *)
Theorem ParseFile_without_marker disk file ls v f0 fields :
  disk file = Val (lines ls) → forallb skipped ls = true →
  elems v = [] → elemType v = Struct (f0 :: fields) →
  ParseFile disk file (PointerToSlice v)
  = (Err ("missing =" +:+ toSnakeCase (Name f0)
          +:+ "= in first test of file " +:+ quote file),
     PointerToSlice (addElement v).1).
Proof.
  intros Hdisk Hls Helems Htype. unfold ParseFile. rewrite Hdisk, Helems.
  cbn [length Nat.eqb negb].
  by rewrite (parse_without_marker ls _ f0 fields).
Qed.

End SkipFacts.

(** ** Values in single-line form *)

Section LineFacts.

Context {E : Engine}.
Implicit Types (s : state E) (lv : locals).

Import Strings.

#[local] Arguments take : simpl nomatch.
#[local] Arguments drop : simpl nomatch.
#[local] Arguments setVal : simpl never.

Lemma space2_newline b0 : space2 b0 newline = false.
Proof. unfold space2. by rewrite andb_false_r. Qed.

Lemma space3_newline_2 b0 b2 : space3 b0 newline b2 = false.
Proof.
  unfold space3.
  change (byteIs newline _) with false. by rewrite !andb_false_r.
Qed.

Lemma space3_newline_3 b0 b1 : space3 b0 b1 newline = false.
Proof.
  unfold space3.
  change (byteIs newline _) with false.
  change (between _ _ newline) with false. by rewrite !andb_false_r.
Qed.

(** A newline behind a text is white space that [TrimLeft] reaches only
    when the text is white space. *)
Lemma TrimLeft_newline n : ∀ x, (len x ≤ n)%nat →
  TrimLeft (x +:+ nl)
  = if eqs (TrimLeft x) "" then "" else TrimLeft x +:+ nl.
Proof.
  induction n as [|n IH]; intros x Hlen.
  { destruct x; [done|cbn in Hlen; lia]. }
  destruct x as [|b0 r]; [done|].
  cbn [len String.length] in Hlen. fold (len r) in Hlen.
  rewrite app_cons. cbn [TrimLeft].
  destruct (asciiSpace b0); [apply IH; lia|].
  destruct r as [|b1 r1].
  { rewrite app_nil_l. cbn [nl]. by rewrite space2_newline. }
  cbn [len String.length] in Hlen. fold (len r1) in Hlen.
  rewrite app_cons. destruct (space2 b0 b1); [apply IH; lia|].
  destruct r1 as [|b2 r2].
  { rewrite app_nil_l. cbn [nl]. by rewrite space3_newline_3. }
  cbn [len String.length] in Hlen. fold (len r2) in Hlen.
  rewrite app_cons. destruct (space3 b0 b1 b2); [apply IH; lia|done].
Qed.

(** [TrimSpace] of a line is the same with and without its newline. *)
Lemma TrimSpace_newline x : TrimSpace (x +:+ nl) = TrimSpace x.
Proof.
  unfold TrimSpace, TrimRight. rewrite (TrimLeft_newline (len x)) by done.
  destruct (eqs (TrimLeft x) "") eqn:Hx.
  - apply eqs_true in Hx. by rewrite Hx.
  - by rewrite rev_app.
Qed.

Lemma wholeLine_nl l : IndexByte l newline = None → wholeLine (l +:+ nl) = true.
Proof.
  intros Hnone. unfold wholeLine. rewrite IndexByte_app_None by done.
  cbn [nl IndexByte]. rewrite bool_decide_true by done.
  cbn [fmap option_fmap option_map]. rewrite len_app.
  change (len nl) with 1%nat. apply Nat.eqb_eq. lia.
Qed.

(** X6: single-line form.  When text that is not white space follows the
    marker on its line, [readText] returns this text without the white space
    around it and leaves the scanner behind the line; the lines that follow
    are no part of the value. *)
Theorem readText_single_line s line tail :
  IndexByte line newline = None →
  TrimSpace line ≠ "" →
  rest s = line +:+ nl +:+ tail →
  readText s = (Ok (TrimSpace line), set_rest tail s).
Proof.
  intros Hnone Hne Hrest. unfold readText.
  rewrite (bind_Ok getLine _ s (line +:+ nl) s).
  2:{ rewrite getLine_eq, Hrest, <- app_assoc.
      rewrite wholeLine_getLineOf; [done|]. by apply wholeLine_nl. }
  unfold bind at 1. unfold gets at 1. unfold bind at 1. unfold modify at 1.
  rewrite TrimSpace_newline. apply eqs_false in Hne. rewrite Hne. cbn [negb].
  unfold ret. by rewrite Hrest, <- app_assoc, drop_app_len.
Qed.

Lemma upperByte_not_lower c : isLowerByte (upperByte c) = false.
Proof. by destruct c as [[] [] [] [] [] [] [] []]. Qed.

Lemma ToUpper_no_lower x : hasLower (ToUpper x) = false.
Proof.
  unfold hasLower. apply negb_false_iff.
  induction x as [|c x IH]; [done|].
  cbn [ToUpper allBytes]. by rewrite upperByte_not_lower, IH.
Qed.

Lemma findField_lower name fields : ∀ i,
  hasLower name = true → findField fields i name = None.
Proof.
  intros i Hlow. revert i. induction fields as [|f fields IH]; intros i; [done|].
  cbn [findField]. destruct (eqs _ name) eqn:Heq; [|apply IH].
  apply eqs_true in Heq. subst name. unfold toSnakeCase in Hlow.
  by rewrite ToUpper_no_lower in Hlow.
Qed.

(** X7: markers are matched in upper case only.  A marker with a
    lower-case letter selects no field, whatever the struct is: [setVal]
    fails with [unexpected =name=] and leaves the record as it is. *)
Theorem setVal_lowercase_marker ix name text s :
  hasLower name = true →
  setVal ix name text s = (Err ("unexpected =" +:+ name +:+ "="), s).
Proof.
  intros Hlow. rewrite setVal_eq. unfold fieldOf.
  by rewrite findField_lower.
Qed.

End LineFacts.

(** ** Substitutions and template calls *)

Section SubstFacts.

Context {E : Engine}.
Implicit Types (s : state E) (lv : locals).

Import Strings.

#[local] Arguments take : simpl nomatch.
#[local] Arguments drop : simpl nomatch.

Lemma Split_app x d y :
  IndexByte x d = None → Split (x +:+ String d y) d = x :: Split y d.
Proof.
  induction x as [|c x IH]; cbn [IndexByte].
  - intros _. rewrite app_nil_l. cbn [Split]. by rewrite bool_decide_true.
  - case_bool_decide as Hc; [done|].
    destruct (IndexByte x d) eqn:Hx; [done|]. intros _.
    rewrite app_cons. cbn [Split]. rewrite bool_decide_false by done.
    by rewrite IH.
Qed.

(** One round of the loop of [applySubst]. *)
Lemma applySubst_loop_S fuel text s :
  applySubst_loop (S fuel) text s
  = let line := getLineOf (rest s) in
    if negb (eqs (checkDef line) "SUBST") then (Ok text, s)
    else
      let s' := set_rest (drop (len line) (rest s)) s in
      match TrimSpace (drop (len "=SUBST=") line) with
      | "" => (Err "invalid empty substitution", s')
      | String d payload =>
          match Split payload d with
          | [from; to; ""] => applySubst_loop fuel (ReplaceAll text from to) s'
          | _ => (Err ("invalid substitution: =SUBST=" +:+ String d payload), s')
          end
      end.
Proof.
  cbn [applySubst_loop]. unfold bind at 1. rewrite getLine_eq. cbn zeta.
  destruct (negb _); [done|].
  unfold bind, gets, modify.
  destruct (TrimSpace _) as [|d payload]; [done|].
  by destruct (Split payload d) as [|from [|to [|[|] [|]]]].
Qed.

(** The loop of [applySubst] does not depend on its fuel, once the fuel
    exceeds the input. *)
Lemma applySubst_loop_fuel f1 : ∀ f2 text s,
  (len (rest s) < f1)%nat → (len (rest s) < f2)%nat →
  applySubst_loop f1 text s = applySubst_loop f2 text s.
Proof.
  induction f1 as [|f1 IH]; intros f2 text s H1 H2; [lia|].
  destruct f2 as [|f2]; [lia|].
  rewrite !applySubst_loop_S. cbn zeta.
  destruct (negb _) eqn:Hname; [done|].
  apply negb_false_iff, eqs_true in Hname.
  destruct (TrimSpace _) as [|d payload]; [done|].
  destruct (Split payload d) as [|from [|to [|[|] [|]]]]; try done.
  assert (len (rest (set_rest (drop (len (getLineOf (rest s))) (rest s)) s))
          < len (rest s))%nat as Hlt.
  { cbn [rest set_rest]. rewrite len_drop.
    pose proof (getLineOf_len (rest s)).
    destruct (getLineOf (rest s)); [done|]. cbn [len String.length] in *. lia. }
  apply IH; lia.
Qed.

(** X8: a rule [=SUBST=/from/to/], the delimiter being the first
    character behind the marker that is no white space, replaces every
    occurrence of [from] in the block by [to]; [applySubst] then goes on with
    the next line, so that rules on successive lines are applied in their
    order, each to the result of the one before. *)
Theorem applySubst_rule text s u d from to tail :
  IndexByte u newline = None →
  TrimSpace u = String d (from +:+ String d (to +:+ String d "")) →
  IndexByte from d = None → IndexByte to d = None →
  rest s = "=SUBST=" +:+ u +:+ nl +:+ tail →
  applySubst text s
  = applySubst (ReplaceAll text from to) (set_rest tail s).
Proof.
  intros Hu Htrim Hfrom Hto Hrest.
  assert (getLineOf (rest s) = "=SUBST=" +:+ u +:+ nl) as Hline.
  { rewrite Hrest.
    replace ("=SUBST=" +:+ u +:+ nl +:+ tail)
      with (("=SUBST=" +:+ u +:+ nl) +:+ tail) by (by rewrite !app_assoc).
    apply wholeLine_getLineOf.
    replace ("=SUBST=" +:+ u +:+ nl) with (("=SUBST=" +:+ u) +:+ nl)
      by (by rewrite !app_assoc).
    apply wholeLine_nl.
    change ("=SUBST=" +:+ u) with ("=SUBST" +:+ String "=" u).
    rewrite IndexByte_app_None by done. cbn [IndexByte].
    rewrite bool_decide_false by done. by rewrite Hu. }
  assert (len tail < len (rest s))%nat as Hlen.
  { rewrite Hrest, !len_app. cbn. lia. }
  unfold applySubst. unfold bind at 1 2. unfold gets at 1 2.
  cbn [rest set_rest]. rewrite applySubst_loop_S. cbn zeta.
  rewrite Hline.
  change (checkDef ("=SUBST=" +:+ u +:+ nl))
    with (checkDef ("=" +:+ "SUBST" +:+ "=" +:+ u +:+ nl)).
  rewrite checkDef_marker by done. rewrite eqs_refl. cbn [negb].
  change (drop (len "=SUBST=") ("=SUBST=" +:+ u +:+ nl))
    with (u +:+ nl).
  rewrite TrimSpace_newline, Htrim.
  rewrite (Split_app from), (Split_app to) by done. cbn [Split].
  replace (drop (len ("=SUBST=" +:+ u +:+ nl)) (rest s)) with tail.
  2:{ rewrite Hrest.
      replace ("=SUBST=" +:+ u +:+ nl +:+ tail)
        with (("=SUBST=" +:+ u +:+ nl) +:+ tail) by (by rewrite !app_assoc).
      by rewrite drop_app_len. }
  apply applySubst_loop_fuel; cbn [rest set_rest]; lia.
Qed.

End SubstFacts.

(** ** Template calls *)

Section CallFacts.

Context {E : Engine}.
Implicit Types (s : state E) (lv : locals).

Import Strings Regexp.

#[local] Arguments take : simpl nomatch.
#[local] Arguments drop : simpl nomatch.

Lemma matchAt_no_bracket c r : c ≠ "["%char → matchAt (String c r) = None.
Proof.
  intros Hc. unfold matchAt. cbn [HasPrefix].
  by rewrite bool_decide_false by done.
Qed.

Lemma findAll_pre pre t : ∀ pos,
  IndexByte pre "[" = None →
  findAll 0 pos (pre +:+ t) = findAll 0 (pos + len pre) t.
Proof.
  induction pre as [|c pre IH]; intros pos.
  { intros _. rewrite app_nil_l. cbn. by rewrite Nat.add_0_r. }
  cbn [IndexByte]. case_bool_decide as Hc; [done|].
  destruct (IndexByte pre "[") eqn:Hpre; [done|]. intros _.
  rewrite app_cons. cbn [findAll].
  rewrite matchAt_no_bracket by done. rewrite IH by done.
  f_equal. cbn [len String.length]. fold (len pre). lia.
Qed.

Lemma findAll_skip x t : ∀ pos,
  findAll (len x) pos (x +:+ t) = findAll 0 (pos + len x) t.
Proof.
  induction x as [|c x IH]; intros pos.
  { rewrite app_nil_l. cbn. by rewrite Nat.add_0_r. }
  rewrite app_cons. cbn [len String.length findAll]. fold (len x).
  rewrite IH. f_equal. lia.
Qed.

Lemma identWidth_name c r :
  isLetter (code c) || isDecimal (code c) = true →
  identWidth (String c r) = 1%nat.
Proof.
  rewrite nameByte_ascii. unfold byteIs, identWidth. by intros ->.
Qed.

Lemma identRun_name name post :
  isName name = true → identRun (name +:+ "]]" +:+ post) = len name.
Proof.
  unfold isName. induction name as [|c name IH].
  { intros _. rewrite app_nil_l. by destruct post. }
  cbn [allBytes]. intros [Hc Hname]%andb_true_iff.
  rewrite app_cons. cbn [identRun]. rewrite identWidth_name by done.
  rewrite IH by done. done.
Qed.

Lemma matchAt_call name post :
  isName name = true → name ≠ "" →
  matchAt ("[[" +:+ name +:+ "]]" +:+ post) = Some (2 + len name + 2)%nat.
Proof.
  intros Hname Hne. unfold matchAt.
  change ("[[" +:+ name +:+ "]]" +:+ post)
    with (String "[" (String "[" (name +:+ "]]" +:+ post))).
  cbn [HasPrefix drop]. rewrite !bool_decide_true by done. cbn [andb].
  rewrite identRun_name by done.
  destruct (len name =? 0)%nat eqn:Hlen.
  { apply Nat.eqb_eq, len_zero in Hlen. done. }
  rewrite drop_app_len.
  replace (HasPrefix (name +:+ "]]" +:+ post) "") with true
    by (by destruct (name +:+ "]]" +:+ post)).
  change ("]]" +:+ post) with (String "]" (String "]" post)).
  cbn [spaceRun isSpace Nat.ltb Nat.leb HasPrefix].
  rewrite !bool_decide_true by done. by destruct post.
Qed.

Lemma IndexAny_name name :
  isName name = true → IndexAny name [" "; "009"; "010"]%char = None.
Proof.
  unfold isName. induction name as [|c name IH]; [done|].
  cbn [allBytes IndexAny]. intros [Hc Hname]%andb_true_iff.
  rewrite IH by done. rewrite bool_decide_false; [done|].
  intros Hin. rewrite !elem_of_cons in Hin.
  destruct Hin as [->|[->|[->|Hin]]]; try by vm_compute in Hc.
  by apply elem_of_nil in Hin.
Qed.

(** X9: a call [[[name]]] is replaced by what the template registered
    under [name] renders, the text in front of the call and behind it being
    kept; the call of a name that is not registered is an error, and so is a
    template that fails to render. *)
Theorem doTemplSubst_call pre name post s :
  IndexByte pre "[" = None → isName name = true → name ≠ "" →
  Contains post "[[" = false →
  doTemplSubst (pre +:+ "[[" +:+ name +:+ "]]" +:+ post) s
  = match templates s !! name with
    | None => (Err ("calling unknown template " +:+ quote name), s)
    | Some t =>
        match template_Execute t nilData with
        | Val out => (Ok (pre +:+ out +:+ post), s)
        | Error e => (Err e, s)
        end
    end.
Proof.
  intros Hpre Hname Hne Hpost.
  set (text := pre +:+ "[[" +:+ name +:+ "]]" +:+ post).
  assert (FindAllStringIndex text
          = [(len pre, len pre + (2 + len name + 2))%nat]) as Hall.
  { unfold FindAllStringIndex, text. rewrite findAll_pre by done.
    change ("[[" +:+ name +:+ "]]" +:+ post)
      with (String "[" ("[" +:+ name +:+ "]]" +:+ post)).
    cbn [findAll].
    change (String "[" ("[" +:+ name +:+ "]]" +:+ post))
      with ("[[" +:+ name +:+ "]]" +:+ post).
    rewrite matchAt_call by done. f_equal.
    replace ("[" +:+ name +:+ "]]" +:+ post)
      with (("[" +:+ name +:+ "]]") +:+ post) by (by rewrite !app_assoc).
    replace (2 + len name + 2 - 1)%nat with (len ("[" +:+ name +:+ "]]")).
    2:{ change ("[" +:+ name +:+ "]]") with (String "[" (name +:+ "]]")).
        cbn [len String.length]. fold (len (name +:+ "]]")).
        rewrite len_app. cbn. lia. }
    rewrite findAll_skip. by apply findAll_no_call. }
  unfold doTemplSubst, bind, gets. rewrite Hall. cbn [doTemplSubst_loop].
  unfold callTemplate. cbn [fst snd].
  replace (drop (len pre + 2) text) with (name +:+ "]]" +:+ post).
  2:{ unfold text. rewrite drop_app_plus. done. }
  replace (len pre + (2 + len name + 2) - 2 - (len pre + 2))%nat
    with (len name) by lia.
  rewrite take_app_len, IndexAny_name by done.
  destruct (templates s !! name) as [t|]; [|done].
  destruct (template_Execute t nilData) as [out|e]; [|done].
  cbn [lift]. rewrite Nat.sub_0_r, drop_0. unfold ret, text.
  rewrite take_app_len.
  replace (pre +:+ "[[" +:+ name +:+ "]]" +:+ post)
    with ((pre +:+ "[[" +:+ name +:+ "]]") +:+ post)
    by (by rewrite !app_assoc).
  replace (len pre + (2 + len name + 2))%nat
    with (len (pre +:+ "[[" +:+ name +:+ "]]"))
    by (rewrite !len_app; cbn; lia).
  by rewrite drop_app_len.
Qed.

End CallFacts.

(** ** The loop of [parse], from [ParseFile] *)

Section LoopFacts.

Context {E : Engine}.
Implicit Types (s : state E) (lv : locals) (c : locals * state E).

#[local] Arguments setVal : simpl never.
#[local] Arguments take : simpl nomatch.
#[local] Arguments drop : simpl nomatch.

Lemma rounds_S n title c :
  rounds (S n) title c
  = match parse_body title c.1 c.2 with
    | (Ok (Some lv), s) => rounds n title (lv, s)
    | _ => None
    end.
Proof. done. Qed.

Lemma rounds_S_inv n title : ∀ c c2,
  rounds (S n) title c = Some c2 →
  ∃ c1, rounds n title c = Some c1
        ∧ parse_body title c1.1 c1.2 = (Ok (Some c2.1), c2.2).
Proof.
  induction n as [|n IH]; intros c c2; rewrite rounds_S;
    destruct (parse_body title c.1 c.2) as [[[lv|]|e|] s] eqn:Hb; try done.
  - intros [= <-]. by exists c.
  - intros (c1 & Hr & Hp)%IH. exists c1. split; [|done].
    by rewrite rounds_S, Hb.
Qed.

Lemma rounds_snoc n title : ∀ c c1,
  rounds n title c = Some c1 →
  rounds (S n) title c
  = match parse_body title c1.1 c1.2 with
    | (Ok (Some lv), s) => Some (lv, s)
    | _ => None
    end.
Proof.
  induction n as [|n IH]; intros c c1.
  - intros [= <-]. rewrite rounds_S.
    by destruct (parse_body title c.1 c.2) as [[[lv|]|e|] s].
  - rewrite (rounds_S (S n)), (rounds_S n).
    destruct (parse_body title c.1 c.2) as [[[lv|]|e|] s]; try done.
    apply IH.
Qed.

Lemma rounds_reachable n title : ∀ ix s0 lv s,
  src s0 = rest s0 →
  rounds n title (firstRound ix, s0) = Some (lv, s) →
  reachable title lv s.
Proof.
  induction n as [|n IH]; intros ix s0 lv s Hsrc.
  - intros [= <- <-]. by apply reach_first.
  - intros ([lv1 s1] & Hr & Hp)%rounds_S_inv.
    eapply reach_next; [by eapply IH|done].
Qed.

Lemma rounds_extends n title : ∀ c c',
  rounds n title c = Some c' → extends c.2 c'.2.
Proof.
  induction n as [|n IH]; intros c c'.
  - intros [= <-]. apply extends_refl.
  - rewrite rounds_S.
    destruct (parse_body title c.1 c.2) as [[[lv|]|e|] s] eqn:Hb; try done.
    intros Hr%IH. eapply extends_trans; [|exact Hr].
    pose proof (parse_body_extends title c.1 c.2) as H. unfold keeps in H.
    by rewrite Hb in H.
Qed.

Lemma parse_loop_fuel f1 title : ∀ f2 lv s,
  (len (rest s) < f1)%nat → (len (rest s) < f2)%nat →
  parse_loop f1 title lv s = parse_loop f2 title lv s.
Proof.
  induction f1 as [|f1 IH]; intros f2 lv s H1 H2; [lia|].
  destruct f2 as [|f2]; [lia|]. rewrite !parse_loop_S.
  destruct (parse_body title lv s) as [[[lv'|]|e|] s'] eqn:Hb; try done.
  apply parse_body_progress in Hb. apply IH; lia.
Qed.

Lemma resume_next title lv s lv' s' :
  parse_body title lv s = (Ok (Some lv'), s') →
  resume title (lv, s) = resume title (lv', s').
Proof.
  intros Hb. unfold resume. cbn [fst snd]. rewrite parse_loop_S, Hb.
  apply parse_body_progress in Hb.
  by rewrite (parse_loop_fuel (len (rest s)) title (S (len (rest s')))) by lia.
Qed.

Lemma resume_Err title lv s e s' :
  parse_body title lv s = (Err e, s') →
  resume title (lv, s) = (Err e, PointerToSlice (slice s')).
Proof. intros Hb. unfold resume. cbn [fst snd]. by rewrite parse_loop_S, Hb. Qed.

Lemma resume_rounds n title : ∀ c c',
  rounds n title c = Some c' → resume title c = resume title c'.
Proof.
  induction n as [|n IH]; intros [lv s] c'.
  - by intros [= <-].
  - rewrite rounds_S. cbn [fst snd].
    destruct (parse_body title lv s) as [[[lv'|]|e|] s'] eqn:Hb; try done.
    intros Hr%IH. by rewrite (resume_next _ _ _ _ _ Hb).
Qed.

(** The slice that [ParseFile] leaves holds what a configuration of the
    loop holds, or more. *)
Lemma resume_extends title lv s :
  ∃ o out, resume title (lv, s) = (o, PointerToSlice out)
           ∧ (length (elems (slice (parse_body title lv s).2))
              ≤ length (elems out))%nat.
Proof.
  unfold resume. cbn [fst snd]. eexists _, _. split; [done|].
  rewrite parse_loop_S.
  destruct (parse_body title lv s) as [[[lv'|]|e|] s'] eqn:Hb;
    cbn [fst snd]; try done.
  pose proof (parse_loop_extends (len (rest s)) title lv' s') as H.
  unfold keeps in H. destruct H as (_ & _ & _ & H & _). done.
Qed.

Lemma ParseFile_start disk file data v f0 fields :
  disk file = Val data → elems v = [] → elemType v = Struct (f0 :: fields) →
  ParseFile disk file (PointerToSlice v)
  = resume (toSnakeCase (Name f0)) (loopStart file data v).
Proof.
  intros Hdisk Helems Htype. unfold ParseFile. rewrite Hdisk, Helems.
  cbn [length Nat.eqb negb]. fold (initial file data v).
  rewrite (parse_struct (initial file data v) f0 fields Htype).
  reflexivity.
Qed.

Lemma ParseFile_rounds disk file data v f0 fields n c :
  disk file = Val data → elems v = [] → elemType v = Struct (f0 :: fields) →
  rounds n (toSnakeCase (Name f0)) (loopStart file data v) = Some c →
  ParseFile disk file (PointerToSlice v) = resume (toSnakeCase (Name f0)) c.
Proof.
  intros Hdisk Helems Htype Hr.
  rewrite (ParseFile_start disk file data v f0 fields) by done.
  by eapply resume_rounds.
Qed.

(** What holds of every configuration of the loop. *)
Lemma rounds_loopStart n title file data v lv s :
  rounds n title (loopStart file data v) = Some (lv, s) →
  reachable title lv s ∧ src s = data ∧ filename s = file
  ∧ elemType (slice s) = elemType v.
Proof.
  intros Hr. split; [by eapply rounds_reachable; [|exact Hr]|].
  apply rounds_extends in Hr as (Hsrc & Hfile & Htype & _). done.
Qed.

Lemma withContext_context title tv file e0 :
  withContext title tv file e0 = e0 +:+ " " +:+ context title tv file.
Proof. unfold withContext, context. by destruct (eqs tv ""). Qed.

(** [setVal] changes nothing when it fails. *)
Lemma setVal_Err ix name text s e s' :
  setVal ix name text s = (Err e, s') → s' = s.
Proof.
  rewrite setVal_eq. destruct (fieldOf s name) as [[i f]|]; [|by intros [= _ <-]].
  destruct (negb _); [by intros [= _ <-]|].
  destruct (FieldKind f); try done; try by intros [= _ <-].
  destruct (Strconv.ParseInt _); [by intros [= _ <-]|done].
Qed.

(** The round for a marker that passes the tests for the order and for
    duplicates. *)
Lemma bindMarker_passes title file lv name text s :
  passes title lv name →
  bindMarker title file lv name text s
  = match setVal (recordOf title lv name s) name text
            (withRecord title lv name s) with
    | (Ok _, s') => (Ok (Some (bound title lv name text s)), s')
    | (Err e, s') =>
        (Err (withContext title (titleValue title lv name text) file e), s')
    | (Stuck, s') => (Stuck, s')
    end.
Proof.
  intros Hpass.
  unfold bound, bindMarker, recordOf, withRecord, titleValue, startsRecord.
  destruct (eqs name title) eqn:Ht.
  - cbn [andb]. destruct (bool_decide (name ∈ seen lv)).
    + unfold bind, ret, gets, modify, onError. cbn [seen el tVal first].
      rewrite bool_decide_false by apply not_elem_of_empty.
      replace (addElement (slice s)).2 with (length (elems (slice s)))
        by (unfold addElement; cbn; lia).
      by destruct (setVal _ name text _) as [[[]|e|] s'].
    + unfold bind, ret, onError. cbn [seen el tVal first].
      rewrite bool_decide_false by apply not_elem_of_empty.
      by destruct (setVal _ name text _) as [[[]|e|] s'].
  - apply eqs_false in Ht. destruct Hpass as [?|[Hfirst Hseen]]; [done|].
    cbn [andb]. rewrite Hfirst. unfold bind at 1. unfold ret at 1.
    rewrite bool_decide_false by done.
    unfold bind, onError, ret. rewrite Hfirst.
    by destruct (setVal _ name text _) as [[[]|e|] s'].
Qed.





Lemma parse_body_text_Err title lv s name s1 e0 s2 :
  readDef s = (Ok name, s1) → fieldMarker name →
  readExpandedText s1 = (Err e0, s2) →
  parse_body title lv s = (Err (withContext title (tVal lv) (filename s) e0), s2).
Proof.
  intros Hdef (H1%eqs_false & H2%eqs_false & H3%eqs_false) Htext.
  unfold parse_body. unfold bind at 1. unfold gets at 1.
  rewrite (bind_Ok _ _ _ _ _ Hdef), H1, H2, H3.
  apply bind_Err. unfold onError. by rewrite Htext.
Qed.


Lemma parse_body_duplicate title lv s name s1 text s2 :
  readDef s = (Ok name, s1) → fieldMarker name →
  readExpandedText s1 = (Ok text, s2) →
  name ≠ title → first lv = false → name ∈ seen lv →
  parse_body title lv s
  = (Err ("found multiple =" +:+ name +:+ "= in test with =" +:+ title
          +:+ "=" +:+ tVal lv), s2).
Proof.
  intros Hdef (H1 & H2 & H3) Htext Hne%eqs_false Hfirst Hseen.
  rewrite (parse_body_marker title lv s name s1 text s2) by done.
  unfold bindMarker. rewrite Hne, Hfirst.
  unfold bind at 1. unfold ret at 1. by rewrite bool_decide_true.
Qed.

Lemma parse_body_passes title lv s name s1 text s2 :
  readDef s = (Ok name, s1) → fieldMarker name →
  readExpandedText s1 = (Ok text, s2) →
  passes title lv name →
  parse_body title lv s
  = match setVal (recordOf title lv name s2) name text
            (withRecord title lv name s2) with
    | (Ok _, s') => (Ok (Some (bound title lv name text s2)), s')
    | (Err e, s') =>
        (Err (withContext title (titleValue title lv name text) (filename s) e),
         s')
    | (Stuck, s') => (Stuck, s')
    end.
Proof.
  intros Hdef (H1 & H2 & H3) Htext Hpass.
  rewrite (parse_body_marker title lv s name s1 text s2) by done.
  by apply bindMarker_passes.
Qed.



End LoopFacts.

(** ** Errors, by the place that raises them *)

Section ErrorSites.

Context {E : Engine}.
Implicit Types (s : state E) (lv : locals).

#[local] Arguments setVal : simpl never.
#[local] Arguments take : simpl nomatch.
#[local] Arguments drop : simpl nomatch.


End ErrorSites.


(** ** A title read again, a marker read again *)

Section RecordsAgain.

Context {E : Engine}.
Implicit Types (s : state E) (lv : locals).

#[local] Arguments setVal : simpl never.

Lemma startsRecord_title title lv :
  title ∈ seen lv → startsRecord title lv title = true.
Proof.
  intros Hseen. unfold startsRecord. by rewrite eqs_refl, bool_decide_true.
Qed.

Lemma advances_slice s s' : advances s s' → slice s' = slice s.
Proof. by intros [k ->]. Qed.

(** C1, as the code has it, for every configuration [(lv, s)] that the
    loop of [parse] reaches in a call of [ParseFile] with a title bound.  The
    text of a marker is read and expanded before the marker is looked at.
    When this succeeds for the title marker, an element is appended to the
    slice; the record goes on in this element, with the text as its title
    value and with no marker seen but the title, and the element is in the
    slice that [ParseFile] leaves.  When it succeeds for a marker that is
    not the title and is in [seen], [ParseFile] fails with [found multiple].
    When it fails, [ParseFile] fails with the error of the expansion in its
    context: no element is appended and no duplicate is reported. *)
Theorem repeated_title_and_duplicate_marker disk file data v f0 fields n lv s :
  disk file = Val data → elems v = [] → elemType v = Struct (f0 :: fields) →
  rounds n (toSnakeCase (Name f0)) (loopStart file data v) = Some (lv, s) →
  first lv = false →
  let title := toSnakeCase (Name f0) in
  (∀ s1 text s2,
     readDef s = (Ok title, s1) →
     readExpandedText s1 = (Ok text, s2) →
     let ix := length (elems (slice s2)) in
     let s3 := set_slice (addElement (slice s2)).1 s2 in
     (∃ new, elems (slice s3) = elems (slice s2) ++ [new])
     ∧ rounds (S n) title (loopStart file data v)
       = match setVal ix title text s3 with
         | (Ok _, s4) =>
             Some ({| el := ix; seen := {[title]}; tVal := text;
                      first := false |}, s4)
         | _ => None
         end
     ∧ ∃ o out,
         ParseFile disk file (PointerToSlice v) = (o, PointerToSlice out)
         ∧ (ix < length (elems out))%nat)
  ∧ (∀ name s1 text s2,
       name ≠ title → name ∈ seen lv →
       readDef s = (Ok name, s1) →
       readExpandedText s1 = (Ok text, s2) →
       ParseFile disk file (PointerToSlice v)
       = (Err ("found multiple =" +:+ name +:+ "= in test with =" +:+ title
               +:+ "=" +:+ tVal lv),
          PointerToSlice (slice s2)))
  ∧ (∀ name s1 e s2,
       readDef s = (Ok name, s1) → fieldMarker name →
       readExpandedText s1 = (Err e, s2) →
       ParseFile disk file (PointerToSlice v)
       = (Err (e +:+ " " +:+ context title (tVal lv) file),
          PointerToSlice (slice s))).
Proof.
  intros Hdisk Helems Htype Hr Hfirst title.
  destruct (rounds_loopStart _ _ _ _ _ _ _ Hr) as (Hreach & Hsrc & Hfile & _).
  pose proof (ParseFile_rounds disk file data v f0 fields n (lv, s)
                Hdisk Helems Htype Hr) as HP.
  fold title in HP.
  destruct (reachable_wellFormed _ _ _ Hreach) as [Htitle Hnames].
  specialize (Htitle Hfirst). split; [|split].
  - intros s1 text s2 Hdef Htext ix s3.
    assert (parse_body title lv s
            = match setVal ix title text s3 with
              | (Ok _, s4) =>
                  (Ok (Some {| el := ix; seen := {[title]}; tVal := text;
                               first := false |}), s4)
              | (Err e, s4) =>
                  (Err (withContext title text (filename s) e), s4)
              | (Stuck, s4) => (Stuck, s4)
              end) as Hbody.
    { rewrite (parse_body_passes title lv s title s1 text s2);
        [|done|by apply Hnames|done|by left].
      unfold bound, recordOf, withRecord, titleValue.
      rewrite startsRecord_title, eqs_refl by done.
      by rewrite (right_id_L ∅ (∪)). }
    split; [by eexists|]. split.
    + rewrite (rounds_snoc n title _ (lv, s) Hr). cbn [fst snd].
      rewrite Hbody. by destruct (setVal ix title text s3) as [[[]|e|] s4].
    + destruct (resume_extends title lv s) as (o & out & Hres & Hlen).
      exists o, out. rewrite HP. split; [done|].
      rewrite Hbody in Hlen.
      pose proof (setVal_extends ix title text s3) as (_ & _ & _ & Hset & _).
      assert (length (elems (slice s3)) = S ix) as Hs3.
      { unfold s3, ix, addElement. cbn. rewrite length_app. cbn. lia. }
      destruct (setVal ix title text s3) as [[[]|e|] s4];
        cbn [fst snd] in Hlen, Hset; lia.
  - intros name s1 text s2 Hne Hseen Hdef Htext. rewrite HP.
    apply resume_Err.
    by eapply parse_body_duplicate; [|apply Hnames|..].
  - intros name s1 e s2 Hdef Hname Htext. rewrite HP.
    pose proof (readDef_advances s) as H1. unfold keeps in H1.
    rewrite Hdef in H1. apply advances_slice in H1.
    pose proof (readExpandedText_advances s1) as H2. unfold keeps in H2.
    rewrite Htext in H2. apply advances_slice in H2. cbn [snd] in H1, H2.
    rewrite <- H1, <- H2. rewrite <- withContext_context, <- Hfile.
    apply resume_Err. by eapply parse_body_text_Err.
Qed.

End RecordsAgain.

(** C1, against the claim: the second [=INPUT=] of [twiceInputCall] is
    not reported as a duplicate, as its text calls a template that is not
    defined; and the second title of [twiceTitleCall] appends no record. *)
Lemma failed_expansion_before_duplicate :
  ParseFile (E:=plainEngine) (oneFile twiceInputCall) "file"
    (PointerToSlice (emptySlice descr))
  = (Err ("calling unknown template " +:+ dq +:+ "xx" +:+ dq
          +:+ " in test with =TITLE=t1"),
     PointerToSlice
       {| elemType := descr;
          elems := [Rec [VString "t1"; VString "abc"; VInt 0; VBool false]];
          spare := [] |})
  ∧ "calling unknown template " +:+ dq +:+ "xx" +:+ dq
    +:+ " in test with =TITLE=t1"
    ≠ "found multiple =INPUT= in test with =TITLE=t1"
  ∧ ParseFile (E:=plainEngine) (oneFile twiceTitleCall) "file"
      (PointerToSlice (emptySlice descr))
    = (Err ("calling unknown template " +:+ dq +:+ "xx" +:+ dq
            +:+ " in test with =TITLE=t1"),
       PointerToSlice
         {| elemType := descr;
            elems := [Rec [VString "t1"; VString ""; VInt 0; VBool false]];
            spare := [] |}).
Proof. split; [reflexivity|]. split; [discriminate|reflexivity]. Qed.

Lemma repeated_title_witness :
  (rounds 3 "TITLE" (loopStart "file" twoRecords (emptySlice descr))
   = match
       setVal 1 "TITLE" "t2"
         (set_slice
            (addElement
               (slice (set_rest ("=INPUT=def")
                         (reached 2 "TITLE" twoRecords (emptySlice descr)).2))).1
            (set_rest ("=INPUT=def")
               (reached 2 "TITLE" twoRecords (emptySlice descr)).2))
     with
     | (Ok _, s4) =>
         Some ({| el := 1; seen := {["TITLE"]}; tVal := "t2";
                  first := false |}, s4)
     | _ => None
     end)
  ∧ ParseFile (E:=plainEngine) (oneFile twiceInput) "file"
      (PointerToSlice (emptySlice descr))
    = (Err "found multiple =INPUT= in test with =TITLE=t1",
       PointerToSlice
         (slice (set_rest "" (reached 2 "TITLE" twiceInput (emptySlice descr)).2)))
  ∧ ParseFile (E:=plainEngine) (oneFile twiceInputCall) "file"
      (PointerToSlice (emptySlice descr))
    = (Err (("calling unknown template " +:+ dq +:+ "xx" +:+ dq) +:+ " "
            +:+ context (E:=plainEngine) "TITLE" "t1" "file"),
       PointerToSlice
         (slice (reached 2 "TITLE" twiceInputCall (emptySlice descr)).2)).
Proof.
  split; [|split].
  - refine (proj1 (proj2 (proj1
      (repeated_title_and_duplicate_marker (E:=plainEngine) (oneFile twoRecords)
         "file" twoRecords (emptySlice descr) (exported "Title" KString)
         [exported "Input" KString; exported "Count" KInt;
          exported "Todo" KBool]
         2 (reached 2 "TITLE" twoRecords (emptySlice descr)).1
         (reached 2 "TITLE" twoRecords (emptySlice descr)).2
         eq_refl eq_refl eq_refl _ eq_refl)
      (set_rest ("t2" +:+ nl +:+ "=INPUT=def")
         (reached 2 "TITLE" twoRecords (emptySlice descr)).2)
      "t2"
      (set_rest ("=INPUT=def")
         (reached 2 "TITLE" twoRecords (emptySlice descr)).2)
      _ _))); vm_compute; reflexivity.
  - refine (proj1 (proj2
      (repeated_title_and_duplicate_marker (E:=plainEngine) (oneFile twiceInput)
         "file" twiceInput (emptySlice descr) (exported "Title" KString)
         [exported "Input" KString; exported "Count" KInt;
          exported "Todo" KBool]
         2 (reached 2 "TITLE" twiceInput (emptySlice descr)).1
         (reached 2 "TITLE" twiceInput (emptySlice descr)).2
         eq_refl eq_refl eq_refl _ eq_refl))
      "INPUT"
      (set_rest "def" (reached 2 "TITLE" twiceInput (emptySlice descr)).2)
      "def"
      (set_rest "" (reached 2 "TITLE" twiceInput (emptySlice descr)).2)
      _ _ _ _); try (vm_compute; reflexivity).
    discriminate.
  - refine (proj2 (proj2
      (repeated_title_and_duplicate_marker (E:=plainEngine)
         (oneFile twiceInputCall)
         "file" twiceInputCall (emptySlice descr) (exported "Title" KString)
         [exported "Input" KString; exported "Count" KInt;
          exported "Todo" KBool]
         2 (reached 2 "TITLE" twiceInputCall (emptySlice descr)).1
         (reached 2 "TITLE" twiceInputCall (emptySlice descr)).2
         eq_refl eq_refl eq_refl _ eq_refl))
      "INPUT"
      (set_rest "[[xx]]"
         (reached 2 "TITLE" twiceInputCall (emptySlice descr)).2)
      ("calling unknown template " +:+ dq +:+ "xx" +:+ dq)
      (set_rest "" (reached 2 "TITLE" twiceInputCall (emptySlice descr)).2)
      _ _ _); try (vm_compute; reflexivity).
    repeat split; discriminate.
Defined.

(** ** The shape of the records, and where it is looked at *)

Section ShapeSites.

Context {E : Engine}.
Implicit Types (s : state E) (lv : locals).

#[local] Arguments setVal : simpl never.




End ShapeSites.


(** ** What the scanner and the parser keep *)

Section FrameFacts.

Context {E : Engine}.
Implicit Types (s : state E).

(** X10: the functions of the scanner change nothing in the state but the
    scanner position, and move it forward only: what is left of the input
    behind each of them is a suffix of what was left in front of it; the
    templates and the slice are untouched. *)
Theorem scanner_moves_forward s :
  advances s (readDef s).2 ∧ advances s (readText s).2
  ∧ advances s (readExpandedText s).2 ∧ advances s (readTemplName s).2
  ∧ ∀ text, advances s (doTemplSubst text s).2
            ∧ advances s (applySubst text s).2.
Proof.
  split; [apply readDef_advances|]. split; [apply readText_advances|].
  split; [apply readExpandedText_advances|].
  split; [apply readTemplName_advances|].
  intros text. split; [apply doTemplSubst_advances|apply applySubst_advances].
Qed.

(** X11: [parse] keeps the source text, the file name and the element
    type of the slice; it takes no element off the slice and never moves the
    scanner backwards. *)
Theorem parse_keeps_source_and_records s :
  src (parse s).2 = src s ∧ filename (parse s).2 = filename s
  ∧ elemType (slice (parse s).2) = elemType (slice s)
  ∧ (length (elems (slice s)) < length (elems (slice (parse s).2)))%nat
  ∧ ∃ k, rest (parse s).2 = drop k (rest s).
Proof.
  destruct (parse_adds_element s) as (Hsrc & Hfile & Htype & Hlen & Hrest).
  generalize dependent (parse s).2. intros s' Hsrc Hfile Htype Hlen Hrest.
  repeat split; try done.
  unfold set_slice, addElement in Hlen. cbn in Hlen.
  rewrite length_app in Hlen. cbn in Hlen. lia.
Qed.

End FrameFacts.

Lemma checkDef_marker_line_witness : checkDef "=TITLE= test" = "TITLE".
Proof.
  apply (checkDef_marker_line "=TITLE= test" "TITLE"); [discriminate|].
  exists " test". split; reflexivity.
Defined.

Lemma readDef_finds_marker_witness :
  readDef markerState = (Ok "TITLE", set_rest " t1" markerState).
Proof.
  apply (readDef_finds_marker ["# comment"; "  "] "TITLE" " t1" markerState);
    [reflexivity|reflexivity|discriminate|reflexivity].
Defined.

Lemma ParseFile_without_marker_witness :
  ParseFile (E:=plainEngine) (oneFile (lines ["# only a comment"; ""])) "file"
    (PointerToSlice (emptySlice descr))
  = (Err ("missing =" +:+ toSnakeCase "Title" +:+ "= in first test of file "
          +:+ quote (E:=plainEngine) "file"),
     PointerToSlice (addElement (emptySlice descr)).1).
Proof.
  apply (ParseFile_without_marker (E:=plainEngine)
           (oneFile (lines ["# only a comment"; ""])) "file"
           ["# only a comment"; ""] (emptySlice descr)
           (exported "Title" KString)
           [exported "Input" KString; exported "Count" KInt;
            exported "Todo" KBool]);
    reflexivity.
Defined.

Lemma readText_single_line_witness :
  readText plainState
  = (Ok (Strings.TrimSpace " test"), set_rest "=INPUT=abc" plainState).
Proof.
  apply (readText_single_line plainState " test" "=INPUT=abc");
    [reflexivity|discriminate|reflexivity].
Defined.

Lemma setVal_lowercase_marker_witness :
  setVal 0 "input" "abc" recordState
  = (Err ("unexpected =" +:+ "input" +:+ "="), recordState).
Proof. apply (setVal_lowercase_marker 0 "input" "abc" recordState). reflexivity. Defined.

Lemma applySubst_rule_witness :
  applySubst "a wins" substState
  = applySubst (Strings.ReplaceAll "a wins" "wins" "WINS")
      (set_rest "=TITLE=t2" substState).
Proof.
  apply (applySubst_rule "a wins" substState "/wins/WINS/" "/" "wins" "WINS"
           "=TITLE=t2"); reflexivity.
Defined.

Lemma doTemplSubst_call_witness :
  doTemplSubst ("the " +:+ "[[" +:+ "input" +:+ "]]" +:+ " wins") callState
  = (Ok "the number 42 wins", callState).
Proof.
  refine (eq_trans
            (doTemplSubst_call "the " "input" " wins" callState
               eq_refl eq_refl _ eq_refl) _);
    [discriminate|vm_compute; reflexivity].
Defined.
